(** * LegacyJavaCodeChallenge: catalog, selection and scoring

    A shallow embedding of the class [LegacyJavaCodeChallenge] of
    [streamlit_app.py]: the static catalog built by
    [_load_java_code_samples], the weights of [evaluation_criteria],
    [get_challenge_by_difficulty] and [evaluate_response].

    Python floats are IEEE-754 binary64 numbers.  Every finite binary64
    value is a dyadic rational, and every arithmetic operation returns the
    exact result rounded to the nearest representable value, ties to even.
    The embedding keeps a float as the rational it denotes ([Q], in reduced
    form) and writes the rounding out ([b64]).  The exponent is left
    unbounded: a Python list has fewer than 2^63 entries, so every quotient,
    product and sum computed by the scoring code is either zero or of
    magnitude between 2^-70 and 2^64, far inside the normal range of the
    format, where bounded and unbounded exponents agree.

    Python strings are kept as [string]; [str.lower] is written out for the
    letters A to Z, which is what it does on the ASCII difficulty names of
    the catalog.  Exceptions are values ([result]), and the random source of
    [random.choice] is passed explicitly as a generator state. *)

From Stdlib Require Import ZArith QArith Qpower Qround Qabs Qminmax Lqa Lia.
From Stdlib Require Import List Bool String Ascii.
From Stdlib Require Import DecimalString DecimalN DecimalPos.
From Stdlib Require Import Permutation.
From Stdlib Require Import Floats.
Import ListNotations.

Local Open Scope Q_scope.

(** ** Binary64 arithmetic on rationals *)

Module Float64.

(** Mantissa width of binary64. *)
Definition prec : Z := 53.

(** Round a rational to the nearest integer, ties to the even one. *)
Definition rne (x : Q) : Z :=
  let k := Qfloor x in
  match (x - inject_Z k ?= 1 # 2)%Q with
  | Lt => k
  | Gt => (k + 1)%Z
  | Eq => if Z.even k then k else (k + 1)%Z
  end.

(** The exponent [e] of the last mantissa bit of a positive rational:
    [2^52 * 2^e <= q < 2^53 * 2^e]. *)
Definition cexp (q : Q) : Z :=
  let e0 := (Z.log2 (Qnum q) - Z.log2 (Zpos (Qden q)) - prec)%Z in
  if Qle_bool (inject_Z (2 ^ prec) * 2 ^ e0)%Q q then (e0 + 1)%Z else e0.

(** Rounding of a positive rational to 53 significant bits. *)
Definition round_pos (q : Q) : Q :=
  let e := cexp q in
  inject_Z (rne (q / 2 ^ e)) * 2 ^ e.

(** Rounding of any rational to binary64, nearest, ties to even. *)
Definition b64 (q : Q) : Q :=
  Qred (match q ?= 0 with
        | Eq => 0
        | Gt => round_pos q
        | Lt => - round_pos (- q)
        end).

(** [a / b] on Python ints: the correctly rounded quotient.  [None] is
    ZeroDivisionError. *)
Definition int_truediv (a b : Z) : option Q :=
  if (b =? 0)%Z then None else Some (b64 (inject_Z a / inject_Z b)).

(** [x * y] and [x + y] on floats. *)
Definition fmul (x y : Q) : Q := b64 (x * y).
Definition fadd (x y : Q) : Q := b64 (x + y).

(** A decimal literal of the source text, read as a float. *)
Definition literal (q : Q) : Q := b64 q.

(** [min(x, y)] of Python on two floats: the first argument is kept
    unless the second is strictly smaller. *)
Definition fmin (x y : Q) : Q :=
  match y ?= x with
  | Lt => y
  | _ => x
  end.

(** [round(x, 2)] on a finite float: the exact value of [x] is rounded to
    two decimals, ties to even, and the resulting decimal is read back as
    the nearest float. *)
Definition round2 (x : Q) : Q :=
  b64 (inject_Z (rne (x * 100)) / 100).

(** The rational denoted by a finite binary64 value given as sign, mantissa
    and exponent, used to compare [b64] with the primitive floats. *)
Definition of_spec_float (f : SpecFloat.spec_float) : option Q :=
  match f with
  | SpecFloat.S754_zero _ => Some 0
  | SpecFloat.S754_finite s m e =>
      let v := inject_Z (Zpos m) * 2 ^ e in
      Some (Qred (if s then - v else v))
  | _ => None
  end.

Definition of_float (f : float) : option Q :=
  of_spec_float (FloatOps.Prim2SF f).

End Float64.

Import Float64.

(** ** Exceptions *)

(** The exceptions the two methods can raise. *)
Inductive exn : Type :=
| StopIteration
| ZeroDivisionError
| IndexError.

Inductive result (A : Type) : Type :=
| Ok (a : A)
| Raise (e : exn).

Arguments Ok {A} a.
Arguments Raise {A} e.

Definition bind {A B : Type} (r : result A) (k : A -> result B) : result B :=
  match r with
  | Ok a => k a
  | Raise e => Raise e
  end.

Notation "x <- r ;; k" := (bind r (fun x => k))
  (at level 61, r at next level, right associativity).

(** A partial operation lifted to [result], raising [e] where it is
    undefined. *)
Definition or_raise {A : Type} (e : exn) (o : option A) : result A :=
  match o with
  | Some a => Ok a
  | None => Raise e
  end.

(** ** Strings *)

Local Open Scope string_scope.

(** [str.lower] on ASCII text: the letters A to Z are mapped to a to z and
    every other character is kept.  This is [str.lower] exactly on ASCII
    strings.  The theorems below compare its result with the difficulty
    names of the catalog built at construction, "Easy" and "Hard": no
    character outside ASCII is mapped to one of their letters by
    [str.lower], so an argument matches one of them in the code exactly
    when it does here. *)
Definition lower_ascii (c : ascii) : ascii :=
  let n := nat_of_ascii c in
  if ((65 <=? n) && (n <=? 90))%nat then ascii_of_nat (n + 32) else c.

Fixpoint lower (s : string) : string :=
  match s with
  | EmptyString => EmptyString
  | String c s' => String (lower_ascii c) (lower s')
  end.

(** [x in xs] on a list of strings: whole-string, case-sensitive equality
    with some element. *)
Definition str_in (x : string) (xs : list string) : bool :=
  existsb (String.eqb x) xs.

(** The double-quote character, for the string literals of the Java text. *)
Definition dq : string := String (ascii_of_nat 34) EmptyString.

(** ** Data model *)

(** One entry of [code_samples]: a dict with these six keys. *)
Module Challenge.
Record t : Type := mk {
  id : Z;
  name : string;
  difficulty : string;
  code : string;
  hints : list string;
  expected_requirements : list string
}.
End Challenge.

(** The dict [evaluation_criteria]: three weights. *)
Record criteria : Type := {
  correct_requirements : Q;
  identified_bugs : Q;
  code_improvements : Q
}.

(** An instance of the class: its two attributes. *)
Record LegacyJavaCodeChallenge : Type := {
  code_samples : list Challenge.t;
  evaluation_criteria : criteria
}.

(** ** The catalog *)

(** The Java text of the first sample. *)
Definition calculator_code : string :=
    "
public class Calculator {
    // Bug: No input validation
    public double add(double a, double b) {
        return a + b; // Bug: No overflow check
    }
    
    public double subtract(double a, double b) {
        return a - b; // Bug: No underflow check
    }
    
    // Bug: Division by zero not handled
    public double divide(double a, double b) {
        return a / b;
    }
    
    public double multiply(double a, double b) {
        return a * b; // Bug: No overflow check
    }
    
    // Bug: No documentation
    public double power(double base, double exponent) {
        return Math.pow(base, exponent); // Bug: No NaN/infinity checks
    }
}
                ".

(** The Java text of the second sample. *)
Definition authentication_code : string :=
    "
public class AuthenticationService {
    // Bug: Password check is case-insensitive (security issue)
    private static final Map<String, String> VALID_USERS = Map.of(
        " ++ dq ++
    "admin" ++ dq ++
    ", " ++ dq ++
    "Secure123" ++ dq ++
    ",
        " ++ dq ++
    "user1" ++ dq ++
    ", " ++ dq ++
    "Password1" ++ dq ++
    "
    );

    public boolean authenticateUser(String username, String password, String otp, boolean biometric) {
        // Bug: No null checks for required parameters
        if (!VALID_USERS.containsKey(username) || !VALID_USERS.get(username).equalsIgnoreCase(password)) {
            return false; // Bug: Should log failed attempts
        }

        if (otp != null) {
            // Bug: OTP validation missing timeout check
            try {
                int otpValue = Integer.parseInt(otp);
                if (otpValue < 100000 || otpValue > 999999) {
                    return false;
                }
            } catch (NumberFormatException e) {
                return false; // Bug: Should log this error
            }
        }

        if (biometric) {
            // Bug: No actual biometric verification
            return Math.random() > 0.1; // 10% failure rate
        }

        return true; // Bug: Should require at least 2FA for sensitive operations
    }
}
                ".

(** The first dict of the list returned by [_load_java_code_samples]. *)
Definition simple_calculator : Challenge.t :=
  Challenge.mk 1
    "Simple Calculator"
    "Easy"
    calculator_code
    [ "Basic arithmetic operations";
      "Check for mathematical edge cases";
      "Consider numerical limitations" ]
    [ "Addition with overflow check";
      "Subtraction with underflow check";
      "Division with zero check";
      "Multiplication with overflow check";
      "Power function with validation";
      "Input validation for all methods";
      "Proper method documentation" ].

(** The second dict of the list. *)
Definition multi_layer_authentication : Challenge.t :=
  Challenge.mk 2
    "Multi-Layer Authentication System"
    "Hard"
    authentication_code
    [ "Security system with multiple authentication layers";
      "Check for proper validation in each step";
      "Consider thread safety for the service" ]
    [ "Case-sensitive password validation";
      "OTP should be 6 digits with timeout";
      "Proper biometric verification implementation";
      "Failed login attempt logging";
      "Minimum 2FA requirement for sensitive operations";
      "Null checks for required parameters";
      "Thread-safe implementation" ].

(** [_load_java_code_samples]: the two samples, in the order of the source. *)
Definition _load_java_code_samples : list Challenge.t :=
  [ simple_calculator; multi_layer_authentication ].

(** [__init__]: the catalog and the three weights 0.5, 0.4 and 0.1. *)
Definition init : LegacyJavaCodeChallenge :=
  {| code_samples := _load_java_code_samples;
     evaluation_criteria :=
       {| correct_requirements := literal (5 # 10);
          identified_bugs := literal (4 # 10);
          code_improvements := literal (1 # 10) |} |}.

(** ** Selection by difficulty *)

Section Selection.

(** The random source: a generator state and the draw of an index below
    a bound, which [random.choice] makes once per call. *)
Variable rng : Type.
Variable randbelow : rng -> nat -> nat * rng.

(** [random.choice(seq)]: the element at a drawn index; indexing outside
    the list raises IndexError. *)
Definition choice {A : Type} (g : rng) (seq : list A) : result A * rng :=
  let (i, g') := randbelow g (List.length seq) in
  (or_raise IndexError (nth_error seq i), g').

(** The list comprehension of [get_challenge_by_difficulty]. *)
Definition filter_by_difficulty (self : LegacyJavaCodeChallenge)
    (difficulty : string) : list Challenge.t :=
  filter (fun c => lower (Challenge.difficulty c) =? lower difficulty)
         (code_samples self).

(** [get_challenge_by_difficulty]: a random element of the filtered list,
    or [None] when the filtered list is empty (no draw is made then). *)
Definition get_challenge_by_difficulty (self : LegacyJavaCodeChallenge)
    (g : rng) (difficulty : string) : result (option Challenge.t) * rng :=
  let filtered := filter_by_difficulty self difficulty in
  match filtered with
  | [] => (Ok None, g)
  | _ :: _ =>
      let (r, g') := choice g filtered in
      (c <- r ;; Ok (Some c), g')
  end.

End Selection.

(** A deterministic random source for examples: the state is a counter, the
    draw below [n] is the counter modulo [n]. *)
Definition counter_randbelow (g n : nat) : nat * nat :=
  (g mod n, S g)%nat.

(** ** Scoring *)

(** The generator expression summed into [req_matches]: one for every
    submitted string that is an element of the answer key. *)
Definition req_matches (challenge : Challenge.t) (requirements : list string)
    : nat :=
  list_sum
    (map (fun _ => 1%nat)
       (filter (fun req => str_in req (Challenge.expected_requirements challenge))
          requirements)).

(** [req_score]: the matches divided by the size of the answer key. *)
Definition req_score (challenge : Challenge.t) (requirements : list string)
    : result Q :=
  or_raise ZeroDivisionError
    (int_truediv (Z.of_nat (req_matches challenge requirements))
       (Z.of_nat (List.length (Challenge.expected_requirements challenge)))).

(** [bug_score]: [min(1.0, len(bugs) / 3)]. *)
Definition bug_score (bugs : list string) : result Q :=
  q <- or_raise ZeroDivisionError (int_truediv (Z.of_nat (List.length bugs)) 3) ;;
  Ok (fmin 1 q).

(** [imp_score]: [min(1.0, len(improvements) / 3)]. *)
Definition imp_score (improvements : list string) : result Q :=
  q <- or_raise ZeroDivisionError
         (int_truediv (Z.of_nat (List.length improvements)) 3) ;;
  Ok (fmin 1 q).

(** [total_score]: the weighted sum, added left to right. *)
Definition total_score (w : criteria) (req bug imp : Q) : Q :=
  fadd (fadd (fmul req (correct_requirements w))
             (fmul bug (identified_bugs w)))
       (fmul imp (code_improvements w)).

(** [evaluate_response]. *)
Definition evaluate_response (self : LegacyJavaCodeChallenge)
    (challenge_id : Z) (requirements bugs improvements : list string)
    : result Q :=
  challenge <- or_raise StopIteration
                 (find (fun c => (Challenge.id c =? challenge_id)%Z)
                       (code_samples self)) ;;
  req <- req_score challenge requirements ;;
  bug <- bug_score bugs ;;
  imp <- imp_score improvements ;;
  Ok (round2 (total_score (evaluation_criteria self) req bug imp)).

(** ** Text areas *)

(** Whitespace as [str.isspace] classifies the code points below 256: tab,
    line feed, vertical tab, form feed, carriage return, the separators
    0x1c to 0x1f, space, next line (0x85) and no-break space (0xa0). *)
Definition is_space (c : ascii) : bool :=
  let n := nat_of_ascii c in
  ((9 <=? n) && (n <=? 13) || (28 <=? n) && (n <=? 32)
   || (n =? 133) || (n =? 160))%nat.

(** The characters of a string, in order. *)
Fixpoint chars (s : string) : list ascii :=
  match s with
  | EmptyString => []
  | String c s' => c :: chars s'
  end.

(** The line feed character. *)
Definition nl : ascii := ascii_of_nat 10.

(** Truth value of a string: [false] for the empty string only. *)
Definition truthy (s : string) : bool :=
  match s with
  | EmptyString => false
  | String _ _ => true
  end.

(** [str.lstrip()], [str.rstrip()] and [str.strip()]. *)
Fixpoint lstrip (s : string) : string :=
  match s with
  | EmptyString => EmptyString
  | String c s' => if is_space c then lstrip s' else s
  end.

Fixpoint rstrip (s : string) : string :=
  match s with
  | EmptyString => EmptyString
  | String c s' =>
      match rstrip s' with
      | EmptyString => if is_space c then EmptyString else String c EmptyString
      | r => String c r
      end
  end.

Definition strip (s : string) : string := rstrip (lstrip s).

(** [s.split('\n')]: the pieces between line feeds; one piece more than
    there are line feeds. *)
Fixpoint split_nl (s : string) : list string :=
  match s with
  | EmptyString => [EmptyString]
  | String c s' =>
      if Ascii.eqb c nl then EmptyString :: split_nl s'
      else match split_nl s' with
           | piece :: rest => String c piece :: rest
           | [] => [String c EmptyString]
           end
  end.

(** The comprehension [[r.strip() for r in text.split('\n') if r.strip()]]
    that [main] applies to each of the three text areas. *)
Definition response_lines (text : string) : list string :=
  map strip (filter (fun r => truthy (strip r)) (split_nl text)).

(** An entry as the scoring code receives it: not empty, no whitespace at
    either end and no line feed. *)
Definition clean (r : string) : Prop :=
  r <> EmptyString /\ lstrip r = r /\ rstrip r = r /\ ~ In nl (chars r).

(** ** Formatting *)

(** The decimal digits of a natural number, as [str] prints an int. *)
Definition digits (n : Z) : string :=
  NilZero.string_of_uint (N.to_uint (Z.to_N n)).

(** [format(n, "02d")] on an int: at least two characters, filled with
    zeros after the sign. *)
Definition format_02d (n : Z) : string :=
  if (n <? 0)%Z then String "-" (digits (- n))
  else if (n <? 10)%Z then String "0" (digits n)
  else digits n.

(** [format(x, ".1f")] on a finite float: the exact value rounded to one
    decimal, ties to even; the sign is that of the float. *)
Definition format_1f (x : Q) : string :=
  let t := rne (Qabs.Qabs x * 10) in
  let body := digits (t / 10) ++ "." ++ digits (t mod 10) in
  match (x ?= 0)%Q with
  | Lt => String "-" body
  | _ => body
  end.

(** The text [f"{score*100:.1f}"] that the report, the sheet row and the
    mail body show. *)
Definition score_text (score : Q) : string :=
  format_1f (fmul score 100).

(** ** The countdown *)

(** A [timedelta] is a whole number of microseconds; its days must stay
    within 999999999 in absolute value, otherwise the operation that would
    build it raises OverflowError, here [None]. *)
Definition us_per_second : Z := 1000000.
Definition us_per_day : Z := 86400 * us_per_second.

Definition timedelta (us : Z) : option Z :=
  if ((-999999999 * us_per_day <=? us) && (us <? 1000000000 * us_per_day))%Z
  then Some us else None.

(** [timedelta.total_seconds()]: the microseconds divided by 10**6, an int
    division giving a float. *)
Definition total_seconds (td : Z) : Q :=
  b64 (inject_Z td / inject_Z us_per_second).

(** [int(x)] on a finite float: truncation towards zero. *)
Definition int_of_float (x : Q) : Z :=
  match (x ?= 0)%Q with
  | Lt => Qceiling x
  | _ => Qfloor x
  end.

(** [display_timer].  A [datetime] is the number of microseconds since
    the first instant of year 1; the clock read by [datetime.now()] is the
    argument [now].  [start_time] is [None] or a datetime.  [None] as a
    result is OverflowError. *)
Definition display_timer (now : Z) (start_time : option Z)
    (time_limit_minutes : Z) : option (bool * string) :=
  match start_time with
  | Some start =>
      match timedelta (now - start) with
      | None => None
      | Some elapsed =>
          match timedelta (time_limit_minutes * 60 * us_per_second) with
          | None => None
          | Some limit =>
              match timedelta (limit - elapsed) with
              | None => None
              | Some remaining =>
                  if Qle_bool (total_seconds remaining) 0
                  then Some (true, "00:00:00")
                  else
                    let total := int_of_float (total_seconds remaining) in
                    let hours := (total / 3600)%Z in
                    let remainder := (total mod 3600)%Z in
                    let minutes := (remainder / 60)%Z in
                    let seconds := (remainder mod 60)%Z in
                    Some (false,
                          format_02d hours ++ ":" ++ format_02d minutes
                          ++ ":" ++ format_02d seconds)
              end
          end
      end
  | None => Some (false, "45:00")
  end.

(** The datetimes of Python: year 1 to year 9999, 3652059 days. *)
Definition datetime_range (t : Z) : Prop :=
  (0 <= t < 3652059 * us_per_day)%Z.


(** ** The page script *)

(** [st.session_state] once [main] has initialised it: its eight keys. *)
Module Session.
Record t : Type := mk {
  challenge : option Challenge.t;
  show_hints : bool;
  submitted : bool;
  candidate_email : string;
  team_name : string;
  start_time : option Z;
  time_up : bool;
  difficulty : string
}.
End Session.

(** The state written by the first run, when the key 'challenge' is not in
    the session yet. *)
Definition initial_session : Session.t :=
  Session.mk None false false EmptyString EmptyString None false "Easy".

(** What one run of the script receives from outside: the values returned
    by the widgets it renders, the two readings of the clock (in
    [display_timer] and on "Get Challenge"), and the outcome of the two
    deliveries.  [save_to_google_sheet] catches every exception and returns
    a boolean; [send_email_with_pdf] returns a boolean or lets an exception
    of [create_pdf] escape ([None]). *)
Record inputs : Type := {
  now_timer : Z;
  in_team_name : string;
  in_email : string;
  in_difficulty : string;
  get_challenge_clicked : bool;
  now_clicked : Z;
  toggle_hints_clicked : bool;
  in_requirements : string;
  in_bugs : string;
  in_improvements : string;
  submit_clicked : bool;
  sheet_saved : bool;
  email_sent : option bool;
  try_another_clicked : bool
}.

(** The calls and messages of a run that matter outside the page. *)
Inductive effect : Type :=
| TimeUpError
| TimeRemaining (text : string)
| MissingInfoError
| SaveToSheet (team email challenge_name requirements bugs improvements : string)
    (score : Q)
| SendEmail (team email challenge_name requirements bugs improvements : string)
    (score : Q)
| BothDelivered
| OnlyEmailed
| OnlySaved
| NoneDelivered.

(** How a run ends: at the end of the script, by [st.rerun()], by
    [st.stop()], or by an exception nobody catches. *)
Inductive ending : Type :=
| Finished
| Rerun
| Stopped
| Uncaught.

Record run : Type := {
  session : Session.t;
  effects : list effect;
  ended : ending
}.

(** The consistency of a session: a submitted response or shown hints
    belong to a challenge, a challenge has a start time, and time can only
    be up after a start. *)
Definition consistent (s : Session.t) : Prop :=
  (Session.submitted s = true -> Session.challenge s <> None) /\
  (Session.show_hints s = true -> Session.challenge s <> None) /\
  (Session.challenge s <> None -> Session.start_time s <> None) /\
  (Session.time_up s = true -> Session.start_time s <> None).

(** A delivery: one of the two calls that take the response out of the
    page. *)
Definition is_delivery (e : effect) : bool :=
  match e with
  | SaveToSheet _ _ _ _ _ _ _ | SendEmail _ _ _ _ _ _ _ => true
  | _ => false
  end.

Section Page.

Variable rng : Type.
Variable randbelow : rng -> nat -> nat * rng.

(** The timer block of [main]: with a start time, [display_timer] is
    called with 45 minutes and a time-up verdict is recorded. *)
Definition timer_block (i : inputs) (s : Session.t)
    : option (Session.t * list effect) :=
  match Session.start_time s with
  | Some _ =>
      match display_timer (now_timer i) (Session.start_time s) 45 with
      | None => None
      | Some (true, _) =>
          Some (Session.mk (Session.challenge s) (Session.show_hints s)
                  (Session.submitted s) (Session.candidate_email s)
                  (Session.team_name s) (Session.start_time s) true
                  (Session.difficulty s),
                [TimeUpError])
      | Some (false, timer_text) => Some (s, [TimeRemaining timer_text])
      end
  | None => Some (s, [])
  end.

(** The submission branch of the form, taken when the submit button was
    pressed. *)
Definition submit_block (self : LegacyJavaCodeChallenge) (i : inputs)
    (s : Session.t) (c : Challenge.t) (log : list effect) : run :=
  if negb (truthy (Session.team_name s))
     || negb (truthy (Session.candidate_email s))
  then {| session := s; effects := log ++ [MissingInfoError]; ended := Stopped |}
  else
    let s1 := Session.mk (Session.challenge s) (Session.show_hints s) true
                (Session.candidate_email s) (Session.team_name s)
                (Session.start_time s) (Session.time_up s)
                (Session.difficulty s) in
    match evaluate_response self (Challenge.id c)
            (response_lines (in_requirements i))
            (response_lines (in_bugs i))
            (response_lines (in_improvements i)) with
    | Raise _ => {| session := s1; effects := log; ended := Uncaught |}
    | Ok score =>
        let save := SaveToSheet (Session.team_name s1)
                      (Session.candidate_email s1) (Challenge.name c)
                      (in_requirements i) (in_bugs i) (in_improvements i)
                      score in
        let send := SendEmail (Session.team_name s1)
                      (Session.candidate_email s1) (Challenge.name c)
                      (in_requirements i) (in_bugs i) (in_improvements i)
                      score in
        match email_sent i with
        | None =>
            {| session := s1; effects := log ++ [save; send];
               ended := Uncaught |}
        | Some sent =>
            let message :=
              if sheet_saved i && sent then BothDelivered
              else if negb (sheet_saved i) && sent then OnlyEmailed
              else if sheet_saved i && negb sent then OnlySaved
              else NoneDelivered in
            {| session := s1; effects := log ++ [save; send; message];
               ended := Rerun |}
        end
    end.

(** [main]: one run of the script from the session left by the previous
    run ([None] for a new session).  Calls that only render text are left
    out. *)
Definition main (i : inputs) (g : rng) (previous : option Session.t)
    : run * rng :=
  let s0 := match previous with
            | Some s => s
            | None => initial_session
            end in
  let challenge_system := init in
  match timer_block i s0 with
  | None => ({| session := s0; effects := []; ended := Uncaught |}, g)
  | Some (s1, log) =>
      let s2 := Session.mk (Session.challenge s1) (Session.show_hints s1)
                  (Session.submitted s1) (in_email i) (in_team_name i)
                  (Session.start_time s1) (Session.time_up s1)
                  (in_difficulty i) in
      if get_challenge_clicked i then
        match get_challenge_by_difficulty rng randbelow challenge_system g
                (Session.difficulty s2) with
        | (Raise _, g') =>
            ({| session := s2; effects := log; ended := Uncaught |}, g')
        | (Ok chosen, g') =>
            ({| session :=
                  Session.mk chosen false false (Session.candidate_email s2)
                    (Session.team_name s2) (Some (now_clicked i)) false
                    (Session.difficulty s2);
                effects := log; ended := Rerun |}, g')
        end
      else
        match Session.challenge s2 with
        | Some c =>
            if toggle_hints_clicked i then
              ({| session :=
                    Session.mk (Session.challenge s2)
                      (negb (Session.show_hints s2)) (Session.submitted s2)
                      (Session.candidate_email s2) (Session.team_name s2)
                      (Session.start_time s2) (Session.time_up s2)
                      (Session.difficulty s2);
                  effects := log; ended := Rerun |}, g)
            else if negb (Session.submitted s2) && negb (Session.time_up s2)
                    && submit_clicked i
            then (submit_block challenge_system i s2 c log, g)
            else if Session.submitted s2 && try_another_clicked i then
              ({| session :=
                    Session.mk None false false (Session.candidate_email s2)
                      (Session.team_name s2) (Session.start_time s2)
                      (Session.time_up s2) (Session.difficulty s2);
                  effects := log; ended := Rerun |}, g)
            else ({| session := s2; effects := log; ended := Finished |}, g)
        | None =>
            if Session.submitted s2 && try_another_clicked i then
              ({| session :=
                    Session.mk None false false (Session.candidate_email s2)
                      (Session.team_name s2) (Session.start_time s2)
                      (Session.time_up s2) (Session.difficulty s2);
                  effects := log; ended := Rerun |}, g)
            else ({| session := s2; effects := log; ended := Finished |}, g)
        end
  end.

(** The sessions a browser tab can be in: the session left by the first run
    of the script, and the session left by a run from such a session. *)
Inductive reachable : Session.t -> Prop :=
| reachable_first (i : inputs) (g : rng) :
    reachable (session (fst (main i g None)))
| reachable_next (i : inputs) (g : rng) (s : Session.t) :
    reachable s -> reachable (session (fst (main i g (Some s)))).

End Page.

(** An input for the examples: a team fills in the form and submits. *)
Definition example_inputs : inputs :=
  {| now_timer := 60000000;
     in_team_name := "Team A";
     in_email := "a@example.org";
     in_difficulty := "Easy";
     get_challenge_clicked := false;
     now_clicked := 0;
     toggle_hints_clicked := false;
     in_requirements := "Division with zero check";
     in_bugs := "b1";
     in_improvements := EmptyString;
     submit_clicked := true;
     sheet_saved := true;
     email_sent := Some true;
     try_another_clicked := false |}.

(** A session in which the candidate works on the first challenge. *)
Definition example_session : Session.t :=
  Session.mk (Some simple_calculator) false false EmptyString EmptyString (Some 0%Z) false "Easy".

(** An input for the examples: the team presses "Get Challenge". *)
Definition example_get_inputs : inputs :=
  {| now_timer := 0;
     in_team_name := "Team A";
     in_email := "a@example.org";
     in_difficulty := "Easy";
     get_challenge_clicked := true;
     now_clicked := 0;
     toggle_hints_clicked := false;
     in_requirements := EmptyString;
     in_bugs := EmptyString;
     in_improvements := EmptyString;
     submit_clicked := false;
     sheet_saved := false;
     email_sent := None;
     try_another_clicked := false |}.

(** Two runs in a row from a new session: "Get Challenge", then the
    submission of [example_inputs] one minute later. *)
Definition example_first_run : run * nat :=
  main nat counter_randbelow example_get_inputs 0%nat None.

Definition example_second_run : run * nat :=
  main nat counter_randbelow example_inputs (snd example_first_run)
    (Some (session (fst example_first_run))).

(** ** Equality up to case, as the specification words it *)

(** Two characters are the same letter when they are equal or when one is
    a capital A to Z and the other is the small letter 32 places higher.
    This is written from the meaning of "case-insensitive" and does not
    use [lower]. *)
Definition same_letter (a b : ascii) : bool :=
  let x := nat_of_ascii a in
  let y := nat_of_ascii b in
  ((x =? y)
   || ((65 <=? x) && (x <=? 90) && (y =? x + 32))
   || ((65 <=? y) && (y <=? 90) && (x =? y + 32)))%nat.

(** Two strings are equal ignoring case when they have the same length and
    the same letter at every position. *)
Fixpoint equal_ignoring_case (s t : string) : bool :=
  match s, t with
  | EmptyString, EmptyString => true
  | String a s', String b t' => same_letter a b && equal_ignoring_case s' t'
  | _, _ => false
  end.

(** The 256 characters. *)
Definition all_ascii : list ascii := map ascii_of_nat (seq 0 256).

(** * Properties *)

Local Open Scope Q_scope.

(** ** Rounding to the nearest integer *)

Lemma Qfloor_bounds (x : Q) : inject_Z (Qfloor x) <= x < inject_Z (Qfloor x) + 1.
Proof.
  split; [apply Qfloor_le|].
  pose proof (Qlt_floor x) as H. rewrite inject_Z_plus in H. exact H.
Qed.

Lemma rne_floor_or_succ (x : Q) :
  rne x = Qfloor x \/ rne x = (Qfloor x + 1)%Z.
Proof.
  unfold rne. destruct (x - inject_Z (Qfloor x) ?= 1 # 2); auto.
  destruct (Z.even (Qfloor x)); auto.
Qed.

Lemma rne_inject_Z (k : Z) : rne (inject_Z k) = k.
Proof.
  unfold rne. rewrite Qfloor_Z.
  destruct (Qcompare_spec (inject_Z k - inject_Z k) (1 # 2)) as [H | H | H];
    [exfalso; lra | reflexivity | exfalso; lra].
Qed.

Lemma rne_le (x y : Q) : x <= y -> (rne x <= rne y)%Z.
Proof.
  intros Hxy.
  pose proof (Qfloor_resp_le x y Hxy) as Hk.
  destruct (Z.eq_dec (Qfloor x) (Qfloor y)) as [E | N].
  - unfold rne. rewrite <- E.
    destruct (Qcompare_spec (x - inject_Z (Qfloor x)) (1 # 2)) as [Hx | Hx | Hx];
      destruct (Qcompare_spec (y - inject_Z (Qfloor x)) (1 # 2)) as [Hy | Hy | Hy];
      try destruct (Z.even (Qfloor x)); try lia; exfalso; lra.
  - destruct (rne_floor_or_succ x) as [-> | ->], (rne_floor_or_succ y) as [-> | ->]; lia.
Qed.

(** [rne x] is an integer nearest to [x]. *)
Lemma rne_nearest (x : Q) : Qabs (inject_Z (rne x) - x) <= 1 # 2.
Proof.
  destruct (Qfloor_bounds x) as [L U].
  apply Qabs_Qle_condition. unfold rne.
  destruct (Qcompare_spec (x - inject_Z (Qfloor x)) (1 # 2)) as [H | H | H];
    try destruct (Z.even (Qfloor x));
    rewrite ?inject_Z_plus; change (inject_Z 1) with 1; split; lra.
Qed.

(** Halfway between two integers, [rne] picks the even one. *)
Lemma rne_tie_even (x : Q) :
  x - inject_Z (Qfloor x) == 1 # 2 -> Z.even (rne x) = true.
Proof.
  intros H. unfold rne. apply Qeq_alt in H. rewrite H.
  destruct (Z.even (Qfloor x)) eqn:E; [exact E |].
  rewrite Z.even_add, E. reflexivity.
Qed.

(** ** Powers of two and the exponent of a rational *)

Lemma pow2_pos (e : Z) : 0 < 2 ^ e.
Proof. apply Qpower_0_lt. reflexivity. Qed.

Lemma pow2_add (a b : Z) : 2 ^ (a + b) == 2 ^ a * 2 ^ b.
Proof. apply Qpower_plus. discriminate. Qed.

Lemma pow2_le (a b : Z) : (a <= b)%Z -> 2 ^ a <= 2 ^ b.
Proof. intros H. apply Qpower_le_compat_l; [exact H | discriminate]. Qed.

Lemma pow2_inject (n : Z) : (0 <= n)%Z -> inject_Z (2 ^ n) == 2 ^ n.
Proof. intros H. now rewrite Zpower_Qpower. Qed.

Lemma Q_as_fraction (q : Q) : q * inject_Z (Zpos (Qden q)) == inject_Z (Qnum q).
Proof.
  destruct q as [a b]. unfold Qeq, Qmult, inject_Z. simpl. lia.
Qed.

Lemma Qnum_pos (q : Q) : 0 < q -> (0 < Qnum q)%Z.
Proof. destruct q as [a b]. unfold Qlt. simpl. lia. Qed.

Lemma log2_bounds (q : Q) :
  0 < q ->
  let l := (Z.log2 (Qnum q) - Z.log2 (Zpos (Qden q)))%Z in
  2 ^ (l - 1) < q /\ q < 2 ^ (l + 1).
Proof.
  intros Hq l.
  pose proof (Qnum_pos q Hq) as Ha.
  set (a := Qnum q) in *. set (b := Zpos (Qden q)) in *.
  assert (Hb : (0 < b)%Z) by (unfold b; lia).
  destruct (Z.log2_spec a Ha) as [Ha1 Ha2].
  destruct (Z.log2_spec b Hb) as [Hb1 Hb2].
  pose proof (Z.log2_nonneg a) as Hla. pose proof (Z.log2_nonneg b) as Hlb.
  set (la := Z.log2 a) in *. set (lb := Z.log2 b) in *.
  assert (Eq : q * inject_Z b == inject_Z a) by apply Q_as_fraction.
  assert (A1 : 2 ^ la <= inject_Z a).
  { rewrite <- pow2_inject by lia. rewrite <- Zle_Qle. exact Ha1. }
  assert (A2 : inject_Z a < 2 ^ (la + 1)).
  { rewrite <- pow2_inject by lia. rewrite <- Zlt_Qlt.
    replace (la + 1)%Z with (Z.succ la) by lia. exact Ha2. }
  assert (B1 : 2 ^ lb <= inject_Z b).
  { rewrite <- pow2_inject by lia. rewrite <- Zle_Qle. exact Hb1. }
  assert (B2 : inject_Z b < 2 ^ (lb + 1)).
  { rewrite <- pow2_inject by lia. rewrite <- Zlt_Qlt.
    replace (lb + 1)%Z with (Z.succ lb) by lia. exact Hb2. }
  pose proof (pow2_pos lb) as Plb. pose proof (pow2_pos (lb + 1)) as Plb1.
  split.
  - apply (Qmult_lt_r _ _ (2 ^ (lb + 1))); [exact Plb1|].
    rewrite <- pow2_add. replace (l - 1 + (lb + 1))%Z with la by (unfold l; lia).
    apply Qle_lt_trans with (inject_Z a); [exact A1|].
    rewrite <- Eq. apply Qmult_lt_l; assumption.
  - apply (Qmult_lt_r _ _ (2 ^ lb)); [exact Plb|].
    rewrite <- pow2_add. replace (l + 1 + lb)%Z with (la + 1)%Z by (unfold l; lia).
    apply Qle_lt_trans with (inject_Z a); [|exact A2].
    rewrite <- Eq. apply Qmult_le_l; assumption.
Qed.

Lemma cexp_spec (q : Q) :
  0 < q -> 2 ^ (cexp q + 52) <= q /\ q < 2 ^ (cexp q + 53).
Proof.
  intros Hq. destruct (log2_bounds q Hq) as [L U].
  unfold cexp, prec.
  set (l := (Z.log2 (Qnum q) - Z.log2 (Zpos (Qden q)))%Z) in *.
  assert (E : inject_Z (2 ^ 53) * 2 ^ (l - 53) == 2 ^ l).
  { rewrite pow2_inject by lia. rewrite <- pow2_add. now replace (53 + (l - 53))%Z with l by lia. }
  destruct (Qle_bool (inject_Z (2 ^ 53) * 2 ^ (l - 53)) q) eqn:C.
  - apply Qle_bool_iff in C. rewrite E in C. split.
    + now replace (l - 53 + 1 + 52)%Z with l by lia.
    + now replace (l - 53 + 1 + 53)%Z with (l + 1)%Z by lia.
  - assert (C' : q < 2 ^ l).
    { apply Qnot_le_lt. intros H. rewrite <- E in H. apply Qle_bool_iff in H. congruence. }
    split.
    + replace (l - 53 + 52)%Z with (l - 1)%Z by lia. now apply Qlt_le_weak.
    + now replace (l - 53 + 53)%Z with l by lia.
Qed.

Lemma cexp_le (x y : Q) : 0 < x -> x <= y -> (cexp x <= cexp y)%Z.
Proof.
  intros Hx Hxy.
  assert (Hy : 0 < y) by (eapply Qlt_le_trans; eauto).
  destruct (cexp_spec x Hx) as [Lx _]. destruct (cexp_spec y Hy) as [_ Uy].
  destruct (Z_le_gt_dec (cexp x) (cexp y)) as [H | H]; [exact H | exfalso].
  assert (K : 2 ^ (cexp y + 53) <= 2 ^ (cexp x + 52)) by (apply pow2_le; lia).
  lra.
Qed.

(** ** Rounding to binary64 *)

Lemma scaled_bounds (q : Q) :
  0 < q -> inject_Z (2 ^ 52) <= q / 2 ^ cexp q /\ q / 2 ^ cexp q <= inject_Z (2 ^ 53).
Proof.
  intros Hq. destruct (cexp_spec q Hq) as [L U].
  pose proof (pow2_pos (cexp q)) as P.
  rewrite pow2_add in L, U.
  rewrite !pow2_inject by lia.
  split.
  - apply Qle_shift_div_l; [exact P|]. rewrite Qmult_comm. exact L.
  - apply Qle_shift_div_r; [exact P|]. rewrite Qmult_comm. now apply Qlt_le_weak.
Qed.

Lemma mantissa_bounds (q : Q) :
  0 < q -> (2 ^ 52 <= rne (q / 2 ^ cexp q) <= 2 ^ 53)%Z.
Proof.
  intros Hq. destruct (scaled_bounds q Hq) as [L U].
  apply rne_le in L, U. rewrite rne_inject_Z in L, U. lia.
Qed.

Lemma round_pos_pos (q : Q) : 0 < q -> 0 < round_pos q.
Proof.
  intros Hq. unfold round_pos.
  pose proof (mantissa_bounds q Hq) as [L _].
  pose proof (pow2_pos (cexp q)) as P.
  apply Qmult_lt_0_compat; [|exact P].
  change 0 with (inject_Z 0). rewrite <- Zlt_Qlt. lia.
Qed.

Lemma round_pos_le (x y : Q) : 0 < x -> x <= y -> round_pos x <= round_pos y.
Proof.
  intros Hx Hxy.
  assert (Hy : 0 < y) by (eapply Qlt_le_trans; eauto).
  pose proof (cexp_le x y Hx Hxy) as He.
  unfold round_pos.
  pose proof (pow2_pos (cexp x)) as Px. pose proof (pow2_pos (cexp y)) as Py.
  destruct (Z.eq_dec (cexp x) (cexp y)) as [E | N].
  - rewrite <- E. apply Qmult_le_compat_r; [|now apply Qlt_le_weak].
    rewrite <- Zle_Qle. apply rne_le.
    apply Qmult_le_compat_r; [exact Hxy|].
    apply Qlt_le_weak, Qinv_lt_0_compat, Px.
  - destruct (mantissa_bounds x Hx) as [_ Ux].
    destruct (mantissa_bounds y Hy) as [Ly _].
    apply Qle_trans with (inject_Z (2 ^ 53) * 2 ^ cexp x).
    { apply Qmult_le_compat_r; [|now apply Qlt_le_weak]. now rewrite <- Zle_Qle. }
    apply Qle_trans with (inject_Z (2 ^ 52) * 2 ^ cexp y).
    2:{ apply Qmult_le_compat_r; [|now apply Qlt_le_weak]. now rewrite <- Zle_Qle. }
    rewrite !pow2_inject by lia. rewrite <- !pow2_add.
    apply pow2_le. lia.
Qed.

(** [round_pos q] is a 53-bit multiple of [2 ^ cexp q] within half a unit
    in the last place of [q]. *)
Lemma round_pos_error (q : Q) :
  0 < q -> Qabs (round_pos q - q) <= (1 # 2) * 2 ^ cexp q.
Proof.
  intros Hq. unfold round_pos.
  pose proof (pow2_pos (cexp q)) as P.
  set (e := cexp q) in *.
  assert (E : inject_Z (rne (q / 2 ^ e)) * 2 ^ e - q ==
              (inject_Z (rne (q / 2 ^ e)) - q / 2 ^ e) * 2 ^ e).
  { field. intros Z0. rewrite Z0 in P. discriminate. }
  rewrite E, Qabs_Qmult, (Qabs_pos (2 ^ e)) by now apply Qlt_le_weak.
  apply Qmult_le_compat_r; [apply rne_nearest | now apply Qlt_le_weak].
Qed.

Lemma b64_unfold (q : Q) :
  b64 q == match q ?= 0 with
           | Eq => 0
           | Gt => round_pos q
           | Lt => - round_pos (- q)
           end.
Proof. unfold b64. apply Qred_correct. Qed.

(** Rounding to binary64 is monotone. *)
Lemma b64_le (x y : Q) : x <= y -> b64 x <= b64 y.
Proof.
  intros Hxy. rewrite !b64_unfold.
  destruct (Qcompare_spec x 0) as [Hx | Hx | Hx];
    destruct (Qcompare_spec y 0) as [Hy | Hy | Hy]; try (exfalso; lra).
  - apply Qle_refl.
  - apply Qlt_le_weak, round_pos_pos, Hy.
  - assert (0 < round_pos (- x)) by (apply round_pos_pos; lra). lra.
  - assert (round_pos (- y) <= round_pos (- x)) by (apply round_pos_le; lra). lra.
  - assert (0 < round_pos (- x)) by (apply round_pos_pos; lra).
    assert (0 < round_pos y) by (apply round_pos_pos; lra). lra.
  - apply round_pos_le; assumption.
Qed.

(** Rounding depends on the value only, not on the fraction denoting it. *)
Lemma b64_eq (x y : Q) : x == y -> b64 x = b64 y.
Proof.
  intros E.
  assert (H : b64 x == b64 y).
  { apply Qle_antisym; apply b64_le; rewrite E; apply Qle_refl. }
  unfold b64 in *. rewrite !Qred_correct in H. now apply Qred_complete.
Qed.

Lemma b64_nonneg (x : Q) : 0 <= x -> 0 <= b64 x.
Proof. intros H. change 0 with (b64 0) at 1. now apply b64_le. Qed.

Local Open Scope string_scope.

(** ** Lists of strings *)

Lemma str_in_iff (x : string) (xs : list string) :
  str_in x xs = true <-> In x xs.
Proof.
  unfold str_in. rewrite existsb_exists. split.
  - intros [y [Hy E]]. apply String.eqb_eq in E. now subst.
  - intros H. exists x. split; [exact H | apply String.eqb_refl].
Qed.

Lemma str_in_false (x : string) (xs : list string) :
  ~ In x xs -> str_in x xs = false.
Proof.
  intros H. destruct (str_in x xs) eqn:E; [|reflexivity].
  apply str_in_iff in E. contradiction.
Qed.

Lemma list_sum_ones {A : Type} (l : list A) :
  list_sum (map (fun _ => 1%nat) l) = List.length l.
Proof. induction l as [| a l IH]; simpl; [reflexivity | now rewrite IH]. Qed.

(** [req_matches] counts the submitted entries that are in the key, each
    occurrence once. *)
Lemma req_matches_count (c : Challenge.t) (reqs : list string) :
  req_matches c reqs =
  List.length (filter (fun r => str_in r (Challenge.expected_requirements c)) reqs).
Proof. unfold req_matches. apply list_sum_ones. Qed.

Lemma req_matches_app (c : Challenge.t) (xs ys : list string) :
  req_matches c (xs ++ ys) = (req_matches c xs + req_matches c ys)%nat.
Proof. rewrite !req_matches_count, filter_app. apply length_app. Qed.

Lemma req_matches_snoc_in (c : Challenge.t) (reqs : list string) (r : string) :
  In r (Challenge.expected_requirements c) ->
  req_matches c (reqs ++ [r]) = S (req_matches c reqs).
Proof.
  intros H. rewrite req_matches_app, (req_matches_count c [r]). simpl.
  apply str_in_iff in H. rewrite H. simpl. lia.
Qed.

Lemma req_matches_snoc_notin (c : Challenge.t) (reqs : list string) (r : string) :
  ~ In r (Challenge.expected_requirements c) ->
  req_matches c (reqs ++ [r]) = req_matches c reqs.
Proof.
  intros H. rewrite req_matches_app, (req_matches_count c [r]). simpl.
  rewrite (str_in_false _ _ H). simpl. lia.
Qed.

Lemma req_matches_all_in (c : Challenge.t) (reqs : list string) :
  (forall r, In r reqs -> In r (Challenge.expected_requirements c)) ->
  req_matches c reqs = List.length reqs.
Proof.
  intros H. rewrite req_matches_count. f_equal.
  apply forallb_filter_id. apply forallb_forall. intros r Hr.
  apply str_in_iff. auto.
Qed.

Lemma req_matches_perm (c : Challenge.t) (xs ys : list string) :
  Permutation xs ys -> req_matches c xs = req_matches c ys.
Proof.
  intros P. induction P as [| x l l' P IH | x y l | l l' l'' P1 IH1 P2 IH2].
  - reflexivity.
  - change (x :: l) with ([x] ++ l)%list. change (x :: l') with ([x] ++ l')%list.
    rewrite !req_matches_app. now rewrite IH.
  - change (y :: x :: l) with ([y] ++ [x] ++ l)%list.
    change (x :: y :: l) with ([x] ++ [y] ++ l)%list.
    rewrite !req_matches_app. lia.
  - congruence.
Qed.

(** ** The catalog *)

Lemma catalog_cases (c : Challenge.t) :
  In c (code_samples init) ->
  c = simple_calculator \/ c = multi_layer_authentication.
Proof. simpl. intros [H | [H | []]]; auto. Qed.

Lemma catalog_key_length (c : Challenge.t) :
  In c (code_samples init) ->
  List.length (Challenge.expected_requirements c) = 7%nat.
Proof. simpl. intros [<- | [<- | []]]; reflexivity. Qed.

Lemma catalog_find (c : Challenge.t) :
  In c (code_samples init) ->
  find (fun c' => (Challenge.id c' =? Challenge.id c)%Z) (code_samples init) = Some c.
Proof. simpl. intros [<- | [<- | []]]; reflexivity. Qed.

(** ** Sub-scores *)

Lemma int_truediv_pos (a b : Z) :
  (0 < b)%Z -> int_truediv a b = Some (b64 (inject_Z a / inject_Z b)).
Proof.
  intros H. unfold int_truediv.
  destruct (Z.eqb_spec b 0) as [E | _]; [lia | reflexivity].
Qed.

Lemma req_score_ok (c : Challenge.t) (reqs : list string) :
  Challenge.expected_requirements c <> [] ->
  req_score c reqs =
  Ok (b64 (inject_Z (Z.of_nat (req_matches c reqs)) /
           inject_Z (Z.of_nat (List.length (Challenge.expected_requirements c))))).
Proof.
  intros H. unfold req_score. rewrite int_truediv_pos; [reflexivity|].
  destruct (Challenge.expected_requirements c); [contradiction | simpl; lia].
Qed.

Lemma Qdiv_le_nat (n m d : nat) :
  (0 < d)%nat -> (n <= m)%nat ->
  inject_Z (Z.of_nat n) / inject_Z (Z.of_nat d) <=
  inject_Z (Z.of_nat m) / inject_Z (Z.of_nat d).
Proof.
  intros Hd Hnm. apply Qmult_le_compat_r.
  - rewrite <- Zle_Qle. lia.
  - apply Qlt_le_weak, Qinv_lt_0_compat.
    change 0 with (inject_Z 0). rewrite <- Zlt_Qlt. lia.
Qed.

(** More matches never lower the requirement sub-score. *)
Lemma req_score_mono (c : Challenge.t) (xs ys : list string) :
  Challenge.expected_requirements c <> [] ->
  (req_matches c xs <= req_matches c ys)%nat ->
  exists s s', req_score c xs = Ok s /\ req_score c ys = Ok s' /\ s <= s'.
Proof.
  intros Hk Hn. rewrite !req_score_ok by exact Hk.
  eexists. eexists. split; [reflexivity|]. split; [reflexivity|].
  apply b64_le, Qdiv_le_nat; [|exact Hn].
  destruct (Challenge.expected_requirements c); [contradiction | simpl; lia].
Qed.

Lemma b64_1 : b64 1 = 1.
Proof. reflexivity. Qed.

(** The saturating count score: the float [min(1.0, n / 3)] is the rounding
    of the exact minimum of 1 and n/3. *)
Lemma count_score_exact (n : nat) :
  fmin 1 (b64 (inject_Z (Z.of_nat n) / inject_Z 3)) =
  b64 (Qmin 1 (inject_Z (Z.of_nat n) / 3)).
Proof.
  destruct n as [| [| [| n]]]; try reflexivity.
  set (x := inject_Z (Z.of_nat (S (S (S n)))) / inject_Z 3).
  assert (Hx : 1 <= x).
  { unfold x. apply Qle_shift_div_l; [reflexivity|].
    rewrite Qmult_1_l, <- Zle_Qle. lia. }
  assert (Hb : 1 <= b64 x) by (rewrite <- b64_1 at 1; now apply b64_le).
  change (inject_Z (Z.of_nat (S (S (S n)))) / 3) with x.
  rewrite (b64_eq (Qmin 1 x) 1) by (apply Q.min_l; exact Hx).
  unfold fmin. destruct (Qcompare_spec (b64 x) 1) as [H | H | H];
    [reflexivity | exfalso; lra | reflexivity].
Qed.

Lemma count_score_saturated (n : nat) :
  (3 <= n)%nat -> fmin 1 (b64 (inject_Z (Z.of_nat n) / inject_Z 3)) = 1.
Proof.
  intros H. rewrite count_score_exact.
  rewrite (b64_eq _ 1); [reflexivity|].
  apply Q.min_l. apply Qle_shift_div_l; [reflexivity|].
  rewrite Qmult_1_l. change 3 with (inject_Z 3). rewrite <- Zle_Qle. lia.
Qed.

Lemma bug_score_eq (bugs : list string) :
  bug_score bugs = Ok (fmin 1 (b64 (inject_Z (Z.of_nat (List.length bugs)) / inject_Z 3))).
Proof. reflexivity. Qed.

Lemma imp_score_eq (improvements : list string) :
  imp_score improvements =
  Ok (fmin 1 (b64 (inject_Z (Z.of_nat (List.length improvements)) / inject_Z 3))).
Proof. reflexivity. Qed.

Lemma catalog_key_nonempty (c : Challenge.t) :
  In c (code_samples init) -> Challenge.expected_requirements c <> [].
Proof.
  intros H E. apply catalog_key_length in H. rewrite E in H. discriminate.
Qed.

Lemma find_simple_calculator :
  find (fun c => (Challenge.id c =? 1)%Z) (code_samples init)
  = Some simple_calculator.
Proof. reflexivity. Qed.

(** ** Monotonicity of the float operations *)

Lemma fmul_le (x y w : Q) : 0 <= w -> x <= y -> fmul x w <= fmul y w.
Proof. intros Hw H. apply b64_le. now apply Qmult_le_compat_r. Qed.

Lemma fadd_le (x y x' y' : Q) : x <= x' -> y <= y' -> fadd x y <= fadd x' y'.
Proof. intros Hx Hy. apply b64_le. now apply Qplus_le_compat. Qed.

Lemma round2_le (x y : Q) : x <= y -> round2 x <= round2 y.
Proof.
  intros H. apply b64_le. apply Qmult_le_compat_r; [| discriminate].
  rewrite <- Zle_Qle. apply rne_le.
  apply Qmult_le_compat_r; [exact H | discriminate].
Qed.

Lemma fmin_bounds (x : Q) : 0 <= x -> 0 <= fmin 1 x <= 1.
Proof.
  intros H. unfold fmin.
  destruct (Qcompare_spec x 1) as [E | L | G].
  - split; [discriminate | apply Qle_refl].
  - split; [exact H | now apply Qlt_le_weak].
  - split; [discriminate | apply Qle_refl].
Qed.

Lemma req_matches_nodup (c : Challenge.t) (reqs : list string) :
  NoDup reqs ->
  (req_matches c reqs <= List.length (Challenge.expected_requirements c))%nat.
Proof.
  intros H. rewrite req_matches_count. apply NoDup_incl_length.
  - now apply NoDup_filter.
  - intros r Hr. apply filter_In in Hr. now apply str_in_iff.
Qed.

Lemma Qdiv_nat_nonneg (n d : nat) :
  0 <= inject_Z (Z.of_nat n) / inject_Z (Z.of_nat d).
Proof.
  apply Qmult_le_0_compat.
  - change 0 with (inject_Z 0). rewrite <- Zle_Qle. lia.
  - apply Qinv_le_0_compat. change 0 with (inject_Z 0). rewrite <- Zle_Qle. lia.
Qed.

(** A submission whose requirement strings are pairwise different scores
    between 0 and 1 on every challenge of the catalog. *)
Lemma score_in_unit_interval (c : Challenge.t) (reqs bugs imps : list string) :
  In c (code_samples init) ->
  NoDup reqs ->
  exists s, evaluate_response init (Challenge.id c) reqs bugs imps = Ok s /\
            0 <= s <= 1.
Proof.
  intros Hc Hnd. unfold evaluate_response.
  rewrite (catalog_find c Hc). cbn [or_raise bind].
  rewrite (req_score_ok c reqs (catalog_key_nonempty c Hc)).
  rewrite bug_score_eq, imp_score_eq. cbn [bind].
  eexists. split; [reflexivity|].
  pose proof (req_matches_nodup c reqs Hnd) as Hn.
  rewrite (catalog_key_length c Hc) in *.
  set (rq := b64 (inject_Z (Z.of_nat (req_matches c reqs)) / inject_Z (Z.of_nat 7))).
  set (bg := fmin 1 (b64 (inject_Z (Z.of_nat (List.length bugs)) / inject_Z 3))).
  set (im := fmin 1 (b64 (inject_Z (Z.of_nat (List.length imps)) / inject_Z 3))).
  assert (E77 : b64 (inject_Z (Z.of_nat 7) / inject_Z (Z.of_nat 7)) = 1)
    by (vm_compute; reflexivity).
  assert (E0 : round2 (total_score (evaluation_criteria init) 0 0 0) = 0)
    by (vm_compute; reflexivity).
  assert (E1 : round2 (total_score (evaluation_criteria init) 1 1 1) = 1)
    by (vm_compute; reflexivity).
  assert (W1 : 0 <= correct_requirements (evaluation_criteria init))
    by (vm_compute; discriminate).
  assert (W2 : 0 <= identified_bugs (evaluation_criteria init))
    by (vm_compute; discriminate).
  assert (W3 : 0 <= code_improvements (evaluation_criteria init))
    by (vm_compute; discriminate).
  assert (Hrq : 0 <= rq <= 1).
  { split.
    - apply b64_nonneg, Qdiv_nat_nonneg.
    - unfold rq. rewrite <- E77. apply b64_le, Qdiv_le_nat; lia. }
  assert (Hbg : 0 <= bg <= 1).
  { apply fmin_bounds, b64_nonneg. apply (Qdiv_nat_nonneg _ 3). }
  assert (Him : 0 <= im <= 1).
  { apply fmin_bounds, b64_nonneg. apply (Qdiv_nat_nonneg _ 3). }
  generalize dependent (evaluation_criteria init). intros w E0 E1 W1 W2 W3.
  split.
  - apply Qle_trans with (round2 (total_score w 0 0 0));
      [rewrite E0; apply Qle_refl |].
    apply round2_le. unfold total_score.
    repeat first [apply fadd_le | apply fmul_le]; tauto.
  - apply Qle_trans with (round2 (total_score w 1 1 1));
      [| rewrite E1; apply Qle_refl].
    apply round2_le. unfold total_score.
    repeat first [apply fadd_le | apply fmul_le]; tauto.
Qed.

(** ** Agreement of the rounding model with the primitive binary64 floats

    The literals and the intermediate results of the scenarios below,
    computed once with [b64] and once with the kernel's hardware floats. *)

Example literal_0_4 : of_float 0x1.999999999999ap-2 = Some (literal (4 # 10)).
Proof. vm_compute. reflexivity. Qed.

Example literal_0_1 : of_float 0x1.999999999999ap-4 = Some (literal (1 # 10)).
Proof. vm_compute. reflexivity. Qed.

Example literal_0_59 : of_float 0x1.2e147ae147ae1p-1 = Some (literal (59 # 100)).
Proof. vm_compute. reflexivity. Qed.

Example literal_1_07 : of_float 0x1.11eb851eb851fp+0 = Some (literal (107 # 100)).
Proof. vm_compute. reflexivity. Qed.

Example truediv_4_7 : of_float (4 / 7) = int_truediv 4 7.
Proof. vm_compute. reflexivity. Qed.

Example truediv_2_3 : of_float (2 / 3) = int_truediv 2 3.
Proof. vm_compute. reflexivity. Qed.

Example total_score_scenario :
  of_float (4 / 7 * 0.5 + 2 / 3 * 0x1.999999999999ap-2
            + 1 / 3 * 0x1.999999999999ap-4)
  = Some (total_score (evaluation_criteria init)
            (b64 (4 # 7)) (b64 (2 # 3)) (b64 (1 # 3))).
Proof. vm_compute. reflexivity. Qed.

Example total_score_full :
  of_float (7 / 7 * 0.5 + 1 * 0x1.999999999999ap-2 + 1 * 0x1.999999999999ap-4)
  = Some (total_score (evaluation_criteria init) 1 1 1).
Proof. vm_compute. reflexivity. Qed.

Example total_score_repeat :
  of_float (8 / 7 * 0.5 + 1 * 0x1.999999999999ap-2 + 1 * 0x1.999999999999ap-4)
  = Some (total_score (evaluation_criteria init) (b64 (8 # 7)) 1 1).
Proof. vm_compute. reflexivity. Qed.

(** ** Case-insensitive comparison *)

Lemma all_ascii_complete (a : ascii) : In a all_ascii.
Proof.
  unfold all_ascii. rewrite <- (ascii_nat_embedding a).
  apply in_map, in_seq. pose proof (nat_ascii_bounded a). lia.
Qed.

Lemma lower_ascii_table :
  forallb (fun a =>
             forallb (fun b =>
                        Bool.eqb (Ascii.eqb (lower_ascii a) (lower_ascii b))
                                 (same_letter a b))
                     all_ascii)
          all_ascii = true.
Proof. vm_compute. reflexivity. Qed.

(** [lower] identifies two characters exactly when they are the same
    letter. *)
Lemma lower_ascii_same_letter (a b : ascii) :
  lower_ascii a = lower_ascii b <-> same_letter a b = true.
Proof.
  pose proof lower_ascii_table as T. rewrite forallb_forall in T.
  specialize (T a (all_ascii_complete a)). rewrite forallb_forall in T.
  specialize (T b (all_ascii_complete b)). apply Bool.eqb_prop in T.
  rewrite <- T. symmetry. apply Ascii.eqb_eq.
Qed.

(** Comparing the results of [lower], as the code does, is comparing
    ignoring case. *)
Lemma lower_eq_iff (s t : string) :
  lower s = lower t <-> equal_ignoring_case s t = true.
Proof.
  revert t. induction s as [| a s IH]; intros [| b t]; simpl;
    try (split; discriminate); [tauto |].
  rewrite andb_true_iff, <- IH, <- lower_ascii_same_letter.
  split; [intros [= E1 E2]; auto | intros [E1 E2]; now rewrite E1, E2].
Qed.

Lemma lower_neq_iff (s t : string) :
  lower s <> lower t <-> equal_ignoring_case s t = false.
Proof.
  rewrite lower_eq_iff. destruct (equal_ignoring_case s t); split; congruence.
Qed.

(** ** Selection *)

Lemma filter_by_difficulty_In (self : LegacyJavaCodeChallenge)
    (difficulty : string) (c : Challenge.t) :
  In c (filter_by_difficulty self difficulty) <->
  In c (code_samples self) /\
  lower (Challenge.difficulty c) = lower difficulty.
Proof.
  unfold filter_by_difficulty. rewrite filter_In, String.eqb_eq. reflexivity.
Qed.

Lemma counter_randbelow_lt (g n : nat) :
  (0 < n)%nat -> (fst (counter_randbelow g n) < n)%nat.
Proof. intros H. simpl. apply Nat.mod_upper_bound. lia. Qed.

Example select_easy :
  fst (get_challenge_by_difficulty nat counter_randbelow init 5%nat "EASY")
  = Ok (Some simple_calculator).
Proof. vm_compute. reflexivity. Qed.

Example select_hard :
  fst (get_challenge_by_difficulty nat counter_randbelow init 5%nat "hard")
  = Ok (Some multi_layer_authentication).
Proof. vm_compute. reflexivity. Qed.

Example select_nonexistent :
  get_challenge_by_difficulty nat counter_randbelow init 5%nat
    "nonexistent-level" = (Ok None, 5%nat).
Proof. vm_compute. reflexivity. Qed.

Section SelectionFacts.

Variable rng : Type.
Variable randbelow : rng -> nat -> nat * rng.

(** The contract of the random source: a draw below a positive bound is
    smaller than the bound. *)
Hypothesis randbelow_lt :
  forall g n, (0 < n)%nat -> (fst (randbelow g n) < n)%nat.

Lemma choice_In {A : Type} (g : rng) (seq : list A) :
  seq <> [] ->
  exists a, fst (choice rng randbelow g seq) = Ok a /\ In a seq.
Proof.
  intros Hne. unfold choice.
  assert (Hlen : (0 < List.length seq)%nat).
  { destruct seq; [contradiction | simpl; lia]. }
  pose proof (randbelow_lt g _ Hlen) as Hlt.
  destruct (randbelow g (List.length seq)) as [i g']. simpl in *.
  destruct (nth_error seq i) as [a |] eqn:E.
  - exists a. split; [reflexivity | eapply nth_error_In; eauto].
  - apply nth_error_None in E. lia.
Qed.

(** What [get_challenge_by_difficulty] returns on the catalog built at
    construction, in terms of the comparison of the two [lower] results
    that the code makes. *)
Lemma get_challenge_by_difficulty_lower (g : rng) (difficulty : string) :
  match fst (get_challenge_by_difficulty rng randbelow init g difficulty) with
  | Ok (Some c) =>
      In c (code_samples init) /\
      lower (Challenge.difficulty c) = lower difficulty
  | Ok None =>
      forall c, In c (code_samples init) ->
                lower (Challenge.difficulty c) <> lower difficulty
  | Raise _ => False
  end.
Proof.
  unfold get_challenge_by_difficulty.
  destruct (filter_by_difficulty init difficulty) as [| c0 l] eqn:F.
  - simpl. intros c Hc E.
    assert (H : In c (filter_by_difficulty init difficulty))
      by (apply filter_by_difficulty_In; auto).
    rewrite F in H. exact H.
  - destruct (choice_In g (c0 :: l)) as [a [Ha Hin]]; [discriminate|].
    destruct (choice rng randbelow g (c0 :: l)) as [r g']. simpl in Ha. subst r.
    simpl. rewrite <- F in Hin. now apply filter_by_difficulty_In in Hin.
Qed.

(** C8. On the catalog built at construction, for every difficulty string,
    [get_challenge_by_difficulty] raises nothing; a record it returns is a
    record of the catalog whose difficulty equals the argument ignoring
    case ([equal_ignoring_case], stated without [lower]); and it returns
    [None] only when no record of the catalog has a difficulty equal to the
    argument ignoring case. *)
Theorem get_challenge_by_difficulty_sound (g : rng) (difficulty : string) :
  match fst (get_challenge_by_difficulty rng randbelow init g difficulty) with
  | Ok (Some c) =>
      In c (code_samples init) /\
      equal_ignoring_case (Challenge.difficulty c) difficulty = true
  | Ok None =>
      forall c, In c (code_samples init) ->
                equal_ignoring_case (Challenge.difficulty c) difficulty = false
  | Raise _ => False
  end.
Proof.
  pose proof (get_challenge_by_difficulty_lower g difficulty) as H.
  destruct (fst (get_challenge_by_difficulty rng randbelow init g difficulty))
    as [[c |] | e].
  - destruct H as [Hin Hl]. split; [exact Hin | now apply lower_eq_iff].
  - intros c Hc. apply lower_neq_iff. now apply H.
  - exact H.
Qed.

End SelectionFacts.

Lemma get_challenge_by_difficulty_sound_witness :
  (forall g n, (0 < n)%nat -> (fst (counter_randbelow g n) < n)%nat) /\
  fst (get_challenge_by_difficulty nat counter_randbelow init 0%nat "eAsY")
    = Ok (Some simple_calculator) /\
  In simple_calculator (code_samples init) /\
  equal_ignoring_case "Easy" "eAsY" = true /\
  fst (get_challenge_by_difficulty nat counter_randbelow init 0%nat
         "nonexistent-level") = Ok None /\
  (forall c, In c (code_samples init) ->
             equal_ignoring_case (Challenge.difficulty c) "nonexistent-level"
             = false).
Proof.
  assert (E1 : fst (get_challenge_by_difficulty nat counter_randbelow init
                      0%nat "eAsY") = Ok (Some simple_calculator))
    by (vm_compute; reflexivity).
  assert (E2 : fst (get_challenge_by_difficulty nat counter_randbelow init
                      0%nat "nonexistent-level") = Ok None)
    by (vm_compute; reflexivity).
  pose proof (get_challenge_by_difficulty_sound nat counter_randbelow
                counter_randbelow_lt 0%nat "eAsY") as H1.
  pose proof (get_challenge_by_difficulty_sound nat counter_randbelow
                counter_randbelow_lt 0%nat "nonexistent-level") as H2.
  rewrite E1 in H1. rewrite E2 in H2. destruct H1 as [Hin Heq].
  split; [exact counter_randbelow_lt |].
  split; [exact E1 |]. split; [exact Hin |]. split; [exact Heq |].
  split; [exact E2 | exact H2].
Defined.

(** ** The catalog invariant *)

(** C9. In the catalog built at construction every record has a non-empty
    answer key, so the division of the requirement sub-score never raises
    ZeroDivisionError, and no two records share an id. *)
Theorem catalog_invariant :
  Forall (fun c => Challenge.expected_requirements c <> []) (code_samples init) /\
  NoDup (map Challenge.id (code_samples init)) /\
  (forall c reqs, In c (code_samples init) -> exists s, req_score c reqs = Ok s).
Proof.
  split; [| split].
  - apply Forall_forall. intros c Hc. now apply catalog_key_nonempty.
  - simpl. repeat constructor; simpl; intuition discriminate.
  - intros c reqs Hc. rewrite req_score_ok by now apply catalog_key_nonempty.
    eexists. reflexivity.
Qed.

Lemma catalog_invariant_witness :
  In multi_layer_authentication (code_samples init) /\
  exists s, req_score multi_layer_authentication ["Thread-safe implementation"] = Ok s.
Proof.
  assert (H : In multi_layer_authentication (code_samples init))
    by (simpl; auto).
  split; [exact H |].
  exact (proj2 (proj2 catalog_invariant) multi_layer_authentication
           ["Thread-safe implementation"] H).
Defined.

(** ** Scoring *)

(** C1. [evaluate_response] counts a correct requirement once per
    occurrence: on "Simple Calculator", "Addition with overflow check"
    listed once scores 0.07 and listed twice scores 0.14. *)
Theorem duplicate_requirement_scores_twice :
  evaluate_response init 1 ["Addition with overflow check"] [] []
    = Ok (literal (7 # 100)) /\
  evaluate_response init 1
    ["Addition with overflow check"; "Addition with overflow check"] [] []
    = Ok (literal (14 # 100)) /\
  literal (7 # 100) < literal (14 # 100).
Proof.
  split; [vm_compute; reflexivity |].
  split; vm_compute; reflexivity.
Qed.

(** C2. [evaluate_response] can return more than 1: the whole answer key
    of "Simple Calculator" followed by a repeat of its first entry, with
    three bugs and three improvements, scores 1.07. *)
Theorem score_above_one (b1 b2 b3 i1 i2 i3 : string) :
  evaluate_response init 1
    (Challenge.expected_requirements simple_calculator
       ++ ["Addition with overflow check"])
    [b1; b2; b3] [i1; i2; i3]
    = Ok (literal (107 # 100)) /\
  1 < literal (107 # 100).
Proof. split; vm_compute; reflexivity. Qed.

(** C3 as stated fails: four distinct correct requirements, two bugs and
    one improvement on "Simple Calculator" do not score 0.62. *)
Lemma calculator_scenario_not_0_62 :
  ~ (forall reqs bugs imps : list string,
       NoDup reqs ->
       List.length reqs = 4%nat ->
       (forall r, In r reqs ->
                  In r (Challenge.expected_requirements simple_calculator)) ->
       List.length bugs = 2%nat ->
       List.length imps = 1%nat ->
       evaluate_response init 1 reqs bugs imps = Ok (literal (62 # 100))).
Proof.
  intros H.
  specialize (H ["Addition with overflow check";
                 "Subtraction with underflow check";
                 "Division with zero check";
                 "Multiplication with overflow check"]
                ["b1"; "b2"] ["i1"]).
  assert (E : evaluate_response init 1
                ["Addition with overflow check";
                 "Subtraction with underflow check";
                 "Division with zero check";
                 "Multiplication with overflow check"]
                ["b1"; "b2"] ["i1"] = Ok (literal (59 # 100)))
    by (vm_compute; reflexivity).
  rewrite E in H.
  assert (N : Ok (literal (59 # 100)) <> Ok (literal (62 # 100)))
    by (vm_compute; discriminate).
  apply N, H.
  - repeat constructor; simpl; intuition discriminate.
  - reflexivity.
  - simpl. intuition.
  - reflexivity.
  - reflexivity.
Qed.

(** C3, amended. On "Simple Calculator" (7 expected requirements, weights
    0.5, 0.4 and 0.1), any four distinct correct requirement strings, two
    bug strings and one improvement string score exactly 0.59. *)
Theorem calculator_scenario (reqs bugs imps : list string) :
  NoDup reqs ->
  List.length reqs = 4%nat ->
  (forall r, In r reqs ->
             In r (Challenge.expected_requirements simple_calculator)) ->
  List.length bugs = 2%nat ->
  List.length imps = 1%nat ->
  evaluate_response init 1 reqs bugs imps = Ok (literal (59 # 100)).
Proof.
  intros _ Hlen Hin Hb Hi.
  unfold evaluate_response. rewrite find_simple_calculator.
  cbn [or_raise bind].
  unfold req_score. rewrite (req_matches_all_in _ _ Hin), Hlen.
  rewrite bug_score_eq, imp_score_eq, Hb, Hi.
  vm_compute. reflexivity.
Qed.

Lemma calculator_scenario_witness :
  evaluate_response init 1
    ["Addition with overflow check"; "Subtraction with underflow check";
     "Division with zero check"; "Multiplication with overflow check"]
    ["b1"; "b2"] ["i1"]
  = Ok (literal (59 # 100)).
Proof.
  apply calculator_scenario.
  - repeat constructor; simpl; intuition discriminate.
  - reflexivity.
  - simpl. intuition.
  - reflexivity.
  - reflexivity.
Defined.

(** C4. On every challenge of the catalog, appending an entry of the answer
    key to the requirements never lowers the requirement sub-score, and
    appending an entry that is not in the answer key leaves the returned
    score unchanged. *)
Theorem req_score_append (c : Challenge.t) (reqs : list string) (r : string) :
  In c (code_samples init) ->
  (In r (Challenge.expected_requirements c) ->
   exists s s',
     req_score c reqs = Ok s /\ req_score c (reqs ++ [r]) = Ok s' /\ s <= s') /\
  (~ In r (Challenge.expected_requirements c) ->
   forall bugs imps,
     evaluate_response init (Challenge.id c) (reqs ++ [r]) bugs imps =
     evaluate_response init (Challenge.id c) reqs bugs imps).
Proof.
  intros Hc. split.
  - intros Hr. apply req_score_mono; [now apply catalog_key_nonempty|].
    rewrite (req_matches_snoc_in _ _ _ Hr). lia.
  - intros Hr bugs imps. unfold evaluate_response.
    rewrite (catalog_find c Hc). cbn [or_raise bind].
    unfold req_score. now rewrite (req_matches_snoc_notin _ _ _ Hr).
Qed.

Lemma req_score_append_witness :
  (exists s s',
     req_score simple_calculator ["Division with zero check"] = Ok s /\
     req_score simple_calculator
       (["Division with zero check"] ++ ["Proper method documentation"]) = Ok s' /\
     s <= s') /\
  evaluate_response init 1 (["Division with zero check"] ++ ["no such entry"])
    ["b1"] ["i1"] =
  evaluate_response init 1 ["Division with zero check"] ["b1"] ["i1"].
Proof.
  assert (Hc : In simple_calculator (code_samples init)) by (simpl; auto).
  split.
  - apply (proj1 (req_score_append simple_calculator
                    ["Division with zero check"] "Proper method documentation" Hc)).
    simpl. intuition.
  - apply (proj2 (req_score_append simple_calculator
                    ["Division with zero check"] "no such entry" Hc)).
    simpl. intuition discriminate.
Defined.

(** C5. The bug and improvement sub-scores are [min(1.0, n / 3)] for a list
    of [n] entries, whatever the entries are: the float obtained is the
    rounding of the exact minimum of 1 and n/3; two entries give the float
    2/3; three or more entries give exactly 1.0. *)
Theorem count_scores (entries : list string) :
  let n := List.length entries in
  bug_score entries = Ok (fmin 1 (b64 (inject_Z (Z.of_nat n) / 3))) /\
  imp_score entries = Ok (fmin 1 (b64 (inject_Z (Z.of_nat n) / 3))) /\
  bug_score entries = Ok (b64 (Qmin 1 (inject_Z (Z.of_nat n) / 3))) /\
  imp_score entries = Ok (b64 (Qmin 1 (inject_Z (Z.of_nat n) / 3))) /\
  (n = 2%nat ->
   bug_score entries = Ok (b64 (2 # 3)) /\ imp_score entries = Ok (b64 (2 # 3))) /\
  ((3 <= n)%nat -> bug_score entries = Ok 1 /\ imp_score entries = Ok 1).
Proof.
  intros n. rewrite bug_score_eq, imp_score_eq. fold n.
  change (inject_Z 3) with (3 : Q).
  assert (E : fmin 1 (b64 (inject_Z (Z.of_nat n) / 3)) =
              b64 (Qmin 1 (inject_Z (Z.of_nat n) / 3)))
    by apply count_score_exact.
  split; [reflexivity |]. split; [reflexivity |].
  split; [now rewrite E |]. split; [now rewrite E |].
  split.
  - intros H. rewrite H.
    assert (E2 : fmin 1 (b64 (inject_Z (Z.of_nat 2) / 3)) = b64 (2 # 3))
      by (vm_compute; reflexivity).
    rewrite E2. split; reflexivity.
  - intros H. pose proof (count_score_saturated n H) as S.
    change (inject_Z 3) with (3 : Q) in S. rewrite S. split; reflexivity.
Qed.

Lemma count_scores_witness :
  (bug_score ["b1"; "b2"] = Ok (b64 (2 # 3)) /\
   imp_score ["b1"; "b2"] = Ok (b64 (2 # 3))) /\
  (bug_score ["b1"; "b2"; "b3"; "b4"; "b5"] = Ok 1 /\
   imp_score ["b1"; "b2"; "b3"; "b4"; "b5"] = Ok 1) /\
  (bug_score ["b1"; "b2"; "b3"] = Ok 1 /\
   imp_score ["b1"; "b2"; "b3"] = Ok 1).
Proof.
  split; [| split].
  - apply (proj1 (proj2 (proj2 (proj2 (proj2 (count_scores ["b1"; "b2"])))))).
    reflexivity.
  - apply (proj2 (proj2 (proj2 (proj2 (proj2
             (count_scores ["b1"; "b2"; "b3"; "b4"; "b5"])))))).
    simpl. lia.
  - apply (proj2 (proj2 (proj2 (proj2 (proj2
             (count_scores ["b1"; "b2"; "b3"])))))).
    simpl. lia.
Defined.

(** C6. On every challenge of the catalog the empty submission scores
    exactly 0.0: each of the three sub-scores is 0 and nothing is raised. *)
Theorem empty_submission_scores_zero (c : Challenge.t) :
  In c (code_samples init) ->
  evaluate_response init (Challenge.id c) [] [] [] = Ok 0 /\
  req_score c [] = Ok 0 /\ bug_score [] = Ok 0 /\ imp_score [] = Ok 0.
Proof.
  intros Hc. destruct (catalog_cases c Hc) as [-> | ->];
    (split; [vm_compute; reflexivity |]);
    (split; [vm_compute; reflexivity |]);
    split; vm_compute; reflexivity.
Qed.

Lemma empty_submission_scores_zero_witness :
  In multi_layer_authentication (code_samples init) /\
  evaluate_response init 2 [] [] [] = Ok 0.
Proof.
  assert (H : In multi_layer_authentication (code_samples init))
    by (simpl; auto).
  split; [exact H |].
  exact (proj1 (empty_submission_scores_zero multi_layer_authentication H)).
Defined.

(** C7. On every challenge of the catalog, the answer key itself as the
    requirements, with any three bug strings and any three improvement
    strings, scores exactly 1.0. *)
Theorem full_submission_scores_one (c : Challenge.t) (bugs imps : list string) :
  In c (code_samples init) ->
  List.length bugs = 3%nat ->
  List.length imps = 3%nat ->
  evaluate_response init (Challenge.id c)
    (Challenge.expected_requirements c) bugs imps = Ok 1.
Proof.
  intros Hc Hb Hi. unfold evaluate_response.
  rewrite (catalog_find c Hc). cbn [or_raise bind].
  rewrite bug_score_eq, imp_score_eq, Hb, Hi.
  destruct (catalog_cases c Hc) as [-> | ->]; vm_compute; reflexivity.
Qed.

Lemma full_submission_scores_one_witness :
  evaluate_response init 1 (Challenge.expected_requirements simple_calculator)
    ["b1"; "b2"; "b3"] ["i1"; "i2"; "i3"] = Ok 1.
Proof.
  apply (full_submission_scores_one simple_calculator
           ["b1"; "b2"; "b3"] ["i1"; "i2"; "i3"]).
  - simpl. auto.
  - reflexivity.
  - reflexivity.
Defined.

(** C10. The score does not depend on the order of the entries: permuting
    the requirements, the bugs or the improvements leaves the result of
    [evaluate_response] unchanged, for every challenge id. *)
Theorem evaluate_response_permutation (self : LegacyJavaCodeChallenge)
    (challenge_id : Z) (reqs reqs' bugs bugs' imps imps' : list string) :
  Permutation reqs reqs' ->
  Permutation bugs bugs' ->
  Permutation imps imps' ->
  evaluate_response self challenge_id reqs bugs imps =
  evaluate_response self challenge_id reqs' bugs' imps'.
Proof.
  intros Pr Pb Pi. unfold evaluate_response.
  destruct (find _ (code_samples self)) as [c |]; [| reflexivity].
  cbn [or_raise bind]. unfold req_score, bug_score, imp_score.
  rewrite (req_matches_perm c _ _ Pr).
  rewrite (Permutation_length Pb), (Permutation_length Pi).
  reflexivity.
Qed.

Lemma evaluate_response_permutation_witness :
  evaluate_response init 1
    ["Division with zero check"; "x"] ["b1"; "b2"] ["i1"; "i2"] =
  evaluate_response init 1
    ["x"; "Division with zero check"] ["b2"; "b1"] ["i2"; "i1"].
Proof.
  apply evaluate_response_permutation; apply perm_swap.
Defined.

(** * The text areas of the response form *)

(** ** Stripping *)

Lemma is_space_nl : is_space nl = true.
Proof. reflexivity. Qed.

Lemma lstrip_chars (s : string) (c : ascii) :
  In c (chars (lstrip s)) -> In c (chars s).
Proof.
  induction s as [| a s IH]; simpl; [tauto |].
  destruct (is_space a); simpl; tauto.
Qed.

Lemma rstrip_chars (s : string) (c : ascii) :
  In c (chars (rstrip s)) -> In c (chars s).
Proof.
  revert c. induction s as [| a s IH]; simpl; [tauto |]. intros c.
  destruct (rstrip s) as [| b r] eqn:E.
  - destruct (is_space a); simpl; tauto.
  - simpl. intros [H | H]; [now left | right]. apply IH. exact H.
Qed.

Lemma strip_chars (s : string) (c : ascii) :
  In c (chars (strip s)) -> In c (chars s).
Proof. intros H. apply lstrip_chars, rstrip_chars, H. Qed.

Lemma lstrip_idem (s : string) : lstrip (lstrip s) = lstrip s.
Proof.
  induction s as [| a s IH]; simpl; [reflexivity |].
  destruct (is_space a) eqn:E; [exact IH | simpl; now rewrite E].
Qed.

Lemma rstrip_idem (s : string) : rstrip (rstrip s) = rstrip s.
Proof.
  induction s as [| a s IH]; simpl; [reflexivity |].
  destruct (rstrip s) as [| b r] eqn:E.
  - destruct (is_space a) eqn:Ea; simpl; [reflexivity | now rewrite Ea].
  - simpl in *. rewrite IH. reflexivity.
Qed.

(** A string that starts with a character that is not whitespace keeps it
    under [rstrip]. *)
Lemma rstrip_head (a : ascii) (s : string) :
  is_space a = false -> exists r, rstrip (String a s) = String a r.
Proof.
  intros Ha. simpl. destruct (rstrip s) as [| b r].
  - rewrite Ha. now exists EmptyString.
  - now exists (String b r).
Qed.

Lemma lstrip_rstrip_lstrip (s : string) :
  lstrip (rstrip (lstrip s)) = rstrip (lstrip s).
Proof.
  induction s as [| a s IH]; simpl; [reflexivity |].
  destruct (is_space a) eqn:Ea; [exact IH |].
  destruct (rstrip_head a s Ea) as [r Hr]. rewrite Hr. simpl. now rewrite Ea.
Qed.

Lemma strip_idem (s : string) : strip (strip s) = strip s.
Proof.
  unfold strip. rewrite lstrip_rstrip_lstrip. apply rstrip_idem.
Qed.

Lemma strip_lstrip_fixed (s : string) : lstrip (strip s) = strip s.
Proof. apply lstrip_rstrip_lstrip. Qed.

Lemma strip_rstrip_fixed (s : string) : rstrip (strip s) = strip s.
Proof. unfold strip. apply rstrip_idem. Qed.

(** A string made of whitespace strips to the empty string, and only such
    a string does. *)
Lemma lstrip_empty_iff (s : string) :
  lstrip s = EmptyString <-> forall c, In c (chars s) -> is_space c = true.
Proof.
  induction s as [| a s IH]; simpl.
  - split; [intros _ c [] | reflexivity].
  - destruct (is_space a) eqn:Ea.
    + rewrite IH. split.
      * intros H c [<- | Hc]; auto.
      * intros H c Hc. apply H. now right.
    + split; [discriminate |]. intros H.
      rewrite (H a (or_introl eq_refl)) in Ea. discriminate.
Qed.

Lemma rstrip_empty_iff (s : string) :
  rstrip s = EmptyString <-> forall c, In c (chars s) -> is_space c = true.
Proof.
  induction s as [| a s IH]; simpl.
  - split; [intros _ c [] | reflexivity].
  - destruct (rstrip s) as [| b r] eqn:E.
    + destruct (is_space a) eqn:Ea.
      * split; [| reflexivity]. intros _ c [<- | Hc]; [exact Ea |].
        now apply (proj1 IH eq_refl).
      * split; [discriminate |]. intros H.
        rewrite (H a (or_introl eq_refl)) in Ea. discriminate.
    + split; [discriminate |]. intros H.
      assert (K : String b r = EmptyString)
        by (apply IH; intros c Hc; apply H; now right).
      discriminate.
Qed.

Lemma strip_empty_iff (s : string) :
  strip s = EmptyString <-> forall c, In c (chars s) -> is_space c = true.
Proof.
  unfold strip. rewrite rstrip_empty_iff. split.
  - intros H. apply lstrip_empty_iff. rewrite <- lstrip_idem.
    apply lstrip_empty_iff. exact H.
  - intros H c Hc. apply H. now apply lstrip_chars.
Qed.

(** ** Splitting into lines *)

Lemma split_nl_nonempty (s : string) : split_nl s <> [].
Proof.
  induction s as [| a s IH]; simpl; [discriminate |].
  destruct (Ascii.eqb a nl); [discriminate |].
  destruct (split_nl s); [contradiction | discriminate].
Qed.

(** No piece of [split_nl] contains a line feed. *)
Lemma split_nl_no_nl (s piece : string) :
  In piece (split_nl s) -> ~ In nl (chars piece).
Proof.
  revert piece. induction s as [| a s IH]; simpl; intros piece.
  - intros [<- | []]. simpl. tauto.
  - destruct (Ascii.eqb_spec a nl) as [-> | N].
    + intros [<- | H]; [simpl; tauto | now apply IH].
    + destruct (split_nl s) as [| p rest] eqn:E.
      * intros [<- | []]. simpl. intros [H | []]. congruence.
      * intros [<- | H].
        -- simpl. intros [H | H]; [congruence |].
           apply (IH p); [now left | exact H].
        -- apply IH. now right.
Qed.

(** A string without line feed is a single piece. *)
Lemma split_nl_single (s : string) :
  ~ In nl (chars s) -> split_nl s = [s].
Proof.
  induction s as [| a s IH]; simpl; [reflexivity |]. intros H.
  destruct (Ascii.eqb_spec a nl) as [-> | N]; [tauto |].
  rewrite IH by tauto. reflexivity.
Qed.

(** Splitting distributes over a line feed between two texts. *)
Lemma split_nl_app (a b : string) :
  split_nl (a ++ String nl b) = (split_nl a ++ split_nl b)%list.
Proof.
  induction a as [| c a IH]; simpl.
  - reflexivity.
  - destruct (Ascii.eqb c nl); [now rewrite IH |].
    rewrite IH. destruct (split_nl a) as [| p rest] eqn:E.
    + exfalso. now apply (split_nl_nonempty a).
    + reflexivity.
Qed.

(** ** The entries read from a text area *)

Lemma truthy_true (s : string) : truthy s = true <-> s <> EmptyString.
Proof. destruct s; simpl; split; congruence. Qed.

Lemma clean_strip (r : string) : clean r -> strip r = r.
Proof. intros [_ [L [R _]]]. unfold strip. now rewrite L, R. Qed.

Lemma response_lines_app (a b : string) :
  response_lines (a ++ String nl b) =
  (response_lines a ++ response_lines b)%list.
Proof.
  unfold response_lines. now rewrite split_nl_app, filter_app, map_app.
Qed.

Lemma response_lines_clean (r : string) :
  clean r -> response_lines r = [r].
Proof.
  intros C. pose proof (clean_strip r C) as S. destruct C as [N [_ [_ H]]].
  unfold response_lines. rewrite (split_nl_single r H).
  cbn [filter]. rewrite S.
  destruct r as [| a r]; [contradiction |].
  cbn [truthy map]. now rewrite S.
Qed.

Lemma response_lines_entries_clean (text r : string) :
  In r (response_lines text) -> clean r.
Proof.
  unfold response_lines. rewrite in_map_iff.
  intros [p [<- Hp]]. apply filter_In in Hp. destruct Hp as [Hp Ht].
  repeat split.
  - now apply truthy_true.
  - apply strip_lstrip_fixed.
  - apply strip_rstrip_fixed.
  - intros H. apply strip_chars in H. now apply (split_nl_no_nl text p).
Qed.

Lemma response_lines_concat (ls : list string) :
  Forall clean ls -> response_lines (String.concat (String nl EmptyString) ls) = ls.
Proof.
  induction ls as [| r ls IH]; intros H.
  - reflexivity.
  - inversion H as [| ? ? Hr Hls]; subst.
    destruct ls as [| r' ls'].
    + simpl. now apply response_lines_clean.
    + change (String.concat (String nl EmptyString) (r :: r' :: ls'))
        with (r ++ String nl (String.concat (String nl EmptyString) (r' :: ls'))).
      rewrite response_lines_app, (response_lines_clean r Hr), (IH Hls).
      reflexivity.
Qed.


Lemma split_nl_chars (s piece : string) (c : ascii) :
  In piece (split_nl s) -> In c (chars piece) -> In c (chars s).
Proof.
  revert piece. induction s as [| a s IH]; simpl; intros piece.
  - intros [<- | []]. simpl. tauto.
  - destruct (Ascii.eqb a nl).
    + intros [<- | H]; [simpl; tauto |]. intros Hc. right. now apply (IH piece).
    + destruct (split_nl s) as [| p rest] eqn:E.
      * intros [<- | []]. simpl. tauto.
      * intros [<- | H]; simpl.
        -- intros [Hc | Hc]; [now left | right]. apply (IH p); [now left | exact Hc].
        -- intros Hc. right. apply (IH piece); [now right | exact Hc].
Qed.

(** A text of whitespace only has no entries. *)
Lemma response_lines_blank (text : string) :
  (forall c, In c (chars text) -> is_space c = true) ->
  response_lines text = [].
Proof.
  intros H. unfold response_lines.
  assert (F : forall p, In p (split_nl text) -> truthy (strip p) = false).
  { intros p Hp.
    assert (E : strip p = EmptyString).
    { apply strip_empty_iff. intros c Hc. apply H.
      now apply (split_nl_chars text p). }
    now rewrite E. }
  induction (split_nl text) as [| p l IH]; [reflexivity |].
  simpl. rewrite (F p (or_introl eq_refl)). apply IH.
  intros q Hq. apply F. now right.
Qed.

Lemma chars_split_nl (s : string) (c : ascii) :
  In c (chars s) ->
  c = nl \/ exists piece, In piece (split_nl s) /\ In c (chars piece).
Proof.
  induction s as [| a s IH]; simpl; [tauto |].
  intros [<- | Hc].
  - destruct (Ascii.eqb_spec a nl) as [E | N]; [now left | right].
    destruct (split_nl s) as [| p rest].
    + exists (String a EmptyString). simpl. auto.
    + exists (String a p). simpl. auto.
  - destruct (IH Hc) as [E | [piece [Hp Hin]]]; [now left | right].
    destruct (Ascii.eqb a nl).
    + exists piece. simpl. auto.
    + destruct (split_nl s) as [| p rest]; [contradiction |].
      destruct Hp as [<- | Hp].
      * exists (String a p). simpl. auto.
      * exists piece. simpl. auto.
Qed.

(** A text has no entries exactly when it consists of whitespace. *)
Lemma response_lines_nil_iff (text : string) :
  response_lines text = [] <->
  forall c, In c (chars text) -> is_space c = true.
Proof.
  split; [| apply response_lines_blank].
  intros E c Hc.
  destruct (chars_split_nl text c Hc) as [-> | [piece [Hp Hin]]];
    [reflexivity |].
  assert (S : strip piece = EmptyString).
  { destruct (strip piece) as [| a r] eqn:Es; [reflexivity | exfalso].
    assert (K : In (strip piece) (response_lines text)).
    { unfold response_lines. apply in_map. apply filter_In.
      split; [exact Hp | now rewrite Es]. }
    rewrite E in K. exact K. }
  now apply (proj1 (strip_empty_iff piece) S).
Qed.

Lemma chars_app (s t : string) : chars (s ++ t) = (chars s ++ chars t)%list.
Proof. induction s as [| a s IH]; simpl; [reflexivity | now rewrite IH]. Qed.

Lemma lstrip_length (s : string) :
  (String.length (lstrip s) <= String.length s)%nat.
Proof.
  induction s as [| a s IH]; simpl; [lia |].
  destruct (is_space a); simpl; lia.
Qed.

(** A non-empty string fixed by [lstrip] starts with a character that is
    not whitespace. *)
Lemma lstrip_fixed_head (a : ascii) (s : string) :
  lstrip (String a s) = String a s -> is_space a = false.
Proof.
  simpl. destruct (is_space a); [| reflexivity]. intros E.
  pose proof (lstrip_length s) as L. rewrite E in L. simpl in L. lia.
Qed.

Lemma lstrip_app_space (w s : string) :
  (forall c, In c (chars w) -> is_space c = true) ->
  lstrip (w ++ s) = lstrip s.
Proof.
  induction w as [| a w IH]; simpl; intros H; [reflexivity |].
  rewrite (H a (or_introl eq_refl)). apply IH. intros c Hc. apply H. now right.
Qed.

Lemma rstrip_app_space (s w : string) :
  (forall c, In c (chars w) -> is_space c = true) ->
  rstrip (s ++ w) = rstrip s.
Proof.
  intros H. induction s as [| a s IH]; simpl.
  - now apply rstrip_empty_iff.
  - now rewrite IH.
Qed.

Lemma strip_padded (w1 r w2 : string) :
  clean r ->
  (forall c, In c (chars w1) -> is_space c = true) ->
  (forall c, In c (chars w2) -> is_space c = true) ->
  strip (w1 ++ r ++ w2) = r.
Proof.
  intros [N [L [R _]]] H1 H2. unfold strip.
  rewrite (lstrip_app_space w1 _ H1).
  destruct r as [| a r]; [contradiction |].
  pose proof (lstrip_fixed_head a r L) as Ha.
  change (String a r ++ w2) with (String a (r ++ w2)).
  cbn [lstrip]. rewrite Ha.
  change (String a (r ++ w2)) with (String a r ++ w2).
  rewrite (rstrip_app_space _ w2 H2). exact R.
Qed.

(** X1. Every entry read from a text area is non-empty, has no whitespace
    at either end and contains no line feed. *)
Theorem response_lines_entries (text r : string) :
  In r (response_lines text) ->
  r <> EmptyString /\ lstrip r = r /\ rstrip r = r /\ strip r = r /\
  ~ In nl (chars r).
Proof.
  intros H. pose proof (response_lines_entries_clean text r H) as C.
  pose proof (clean_strip r C) as S. destruct C as [A [B [D E]]]. tauto.
Qed.

Lemma response_lines_entries_witness :
  "a b" <> EmptyString /\ lstrip "a b" = "a b" /\ rstrip "a b" = "a b" /\
  strip "a b" = "a b" /\ ~ In nl (chars "a b").
Proof.
  apply (response_lines_entries (String " " (String "a" (String " " (String "b"
           (String " " (String nl (String " " EmptyString)))))))).
  vm_compute. auto.
Defined.

(** X2. Entries written one per line are read back unchanged: for entries
    that are non-empty, without whitespace at the ends and without line
    feed, reading the text that joins them with line feeds gives the
    entries again. *)
Theorem response_lines_round_trip (ls : list string) :
  Forall clean ls ->
  response_lines (String.concat (String nl EmptyString) ls) = ls.
Proof. apply response_lines_concat. Qed.

Lemma response_lines_round_trip_witness :
  response_lines (String.concat (String nl EmptyString)
                    ["Division with zero check"; "x y"])
  = ["Division with zero check"; "x y"].
Proof.
  apply response_lines_round_trip.
  repeat constructor; try discriminate; vm_compute; intuition discriminate.
Defined.

(** X3. Reading is line by line: the entries of two texts joined by a line
    feed are the entries of the first followed by those of the second. *)
Theorem response_lines_newline (a b : string) :
  response_lines (a ++ String nl b) =
  (response_lines a ++ response_lines b)%list.
Proof. apply response_lines_app. Qed.

(** X4. A text area yields no entry exactly when it holds nothing but
    whitespace. *)
Theorem response_lines_empty_iff (text : string) :
  response_lines text = [] <->
  forall c, In c (chars text) -> is_space c = true.
Proof. apply response_lines_nil_iff. Qed.

Lemma response_lines_empty_iff_witness :
  response_lines (String " " (String nl (String " " EmptyString))) = [].
Proof.
  apply response_lines_empty_iff. intros c H. simpl in H.
  destruct H as [<- | [<- | [<- | []]]]; reflexivity.
Defined.

(** X5. Whitespace around an entry on its line is dropped: an entry padded
    on both sides with whitespace other than line feeds is read as the
    entry itself. *)
Theorem response_lines_padded (w1 r w2 : string) :
  clean r ->
  (forall c, In c (chars w1) -> is_space c = true /\ c <> nl) ->
  (forall c, In c (chars w2) -> is_space c = true /\ c <> nl) ->
  response_lines (w1 ++ r ++ w2) = [r].
Proof.
  intros C H1 H2.
  assert (S : strip (w1 ++ r ++ w2) = r).
  { apply strip_padded; [exact C | |]; intros c Hc; [apply H1 | apply H2]; exact Hc. }
  unfold response_lines. rewrite split_nl_single.
  - cbn [filter]. rewrite S.
    destruct C as [N _]. destruct r as [| a r]; [contradiction |].
    cbn [truthy map]. now rewrite S.
  - rewrite !chars_app. intros H. apply in_app_or in H.
    destruct H as [H | H]; [now apply (proj2 (H1 _ H)) |].
    apply in_app_or in H. destruct H as [H | H].
    + destruct C as [_ [_ [_ K]]]. now apply K.
    + now apply (proj2 (H2 _ H)).
Qed.

Lemma response_lines_padded_witness :
  response_lines ("  " ++ "Division with zero check"
                  ++ String (ascii_of_nat 13) EmptyString)
  = ["Division with zero check"].
Proof.
  apply response_lines_padded.
  - repeat split; try discriminate; vm_compute; intuition discriminate.
  - intros c H. simpl in H. destruct H as [<- | [<- | []]];
      (split; [reflexivity | discriminate]).
  - intros c H. simpl in H. destruct H as [<- | []].
    split; [reflexivity | discriminate].
Defined.

(** X6. A form whose three text areas hold nothing but whitespace scores
    exactly 0.0 on every challenge of the catalog. *)
Theorem blank_form_scores_zero (c : Challenge.t) (t1 t2 t3 : string) :
  In c (code_samples init) ->
  (forall ch, In ch (chars t1) -> is_space ch = true) ->
  (forall ch, In ch (chars t2) -> is_space ch = true) ->
  (forall ch, In ch (chars t3) -> is_space ch = true) ->
  evaluate_response init (Challenge.id c)
    (response_lines t1) (response_lines t2) (response_lines t3) = Ok 0.
Proof.
  intros Hc H1 H2 H3.
  rewrite (response_lines_blank t1 H1), (response_lines_blank t2 H2),
    (response_lines_blank t3 H3).
  destruct (catalog_cases c Hc) as [-> | ->]; vm_compute; reflexivity.
Qed.

Lemma blank_form_scores_zero_witness :
  evaluate_response init 1
    (response_lines " ") (response_lines EmptyString)
    (response_lines (String nl EmptyString)) = Ok 0.
Proof.
  apply (blank_form_scores_zero simple_calculator).
  - simpl. auto.
  - intros ch H. simpl in H. destruct H as [<- | []]. reflexivity.
  - intros ch [].
  - intros ch H. simpl in H. destruct H as [<- | []]. reflexivity.
Defined.

(** * The countdown and the score text *)

(** ** Signs, integers and errors of the rounding *)

Lemma b64_0 : b64 0 = 0.
Proof. reflexivity. Qed.

Lemma b64_pos (q : Q) : 0 < q -> 0 < b64 q.
Proof.
  intros H. rewrite b64_unfold.
  destruct (Qcompare_spec q 0) as [E | L | G]; try (exfalso; lra).
  now apply round_pos_pos.
Qed.

Lemma b64_nonpos (q : Q) : q <= 0 -> b64 q <= 0.
Proof. intros H. rewrite <- b64_0. now apply b64_le. Qed.

Lemma rne_Qeq (x y : Q) : x == y -> rne x = rne y.
Proof.
  intros E. apply Z.le_antisymm; apply rne_le; rewrite E; apply Qle_refl.
Qed.

(** An integer below 2^53 is a binary64 number. *)
Lemma b64_inject_Z (k : Z) : (0 <= k < 2 ^ 53)%Z -> b64 (inject_Z k) == inject_Z k.
Proof.
  intros [H0 H53].
  destruct (Z.eq_dec k 0) as [-> | N]; [reflexivity |].
  assert (Hk : 0 < inject_Z k) by (change 0 with (inject_Z 0); rewrite <- Zlt_Qlt; lia).
  rewrite b64_unfold.
  destruct (Qcompare_spec (inject_Z k) 0) as [E | L | G]; try (exfalso; lra).
  unfold round_pos. destruct (cexp_spec _ Hk) as [Lo _].
  set (e := cexp (inject_Z k)) in *.
  assert (He : (e <= 0)%Z).
  { destruct (Z_le_gt_dec e 0) as [H | H]; [exact H | exfalso].
    assert (K : 2 ^ 53 <= 2 ^ (e + 52)) by (apply pow2_le; lia).
    assert (K2 : inject_Z k < 2 ^ 53).
    { rewrite <- pow2_inject by lia. now rewrite <- Zlt_Qlt. }
    lra. }
  pose proof (pow2_pos e) as Pe.
  assert (Ei : 2 ^ e * inject_Z (2 ^ (- e)) == 1).
  { rewrite pow2_inject by lia. rewrite <- pow2_add.
    now replace (e + - e)%Z with 0%Z by lia. }
  assert (Es : inject_Z k / 2 ^ e == inject_Z (k * 2 ^ (- e))).
  { rewrite inject_Z_mult.
    setoid_replace (inject_Z k / 2 ^ e)
      with (inject_Z k * (2 ^ e * inject_Z (2 ^ (- e))) / 2 ^ e)
      by (rewrite Ei; now rewrite Qmult_1_r).
    field. intros Z0. rewrite Z0 in Pe. discriminate. }
  rewrite (rne_Qeq _ _ Es), rne_inject_Z, inject_Z_mult.
  rewrite <- Qmult_assoc, (Qmult_comm (inject_Z (2 ^ (- e)))), Ei. ring.
Qed.

Lemma b64_error (q : Q) :
  0 < q -> Qabs (b64 q - q) <= (1 # 2) * 2 ^ cexp q.
Proof.
  intros H. rewrite b64_unfold.
  destruct (Qcompare_spec q 0) as [E | L | G]; try (exfalso; lra).
  now apply round_pos_error.
Qed.

(** The exponent of a positive rational below [2 ^ n]. *)
Lemma cexp_below (q : Q) (n : Z) :
  0 < q -> q < 2 ^ n -> (cexp q <= n - 53)%Z.
Proof.
  intros Hq Hn. destruct (cexp_spec q Hq) as [Lo _].
  destruct (Z_le_gt_dec (cexp q) (n - 53)) as [H | H]; [exact H | exfalso].
  assert (K : 2 ^ n <= 2 ^ (cexp q + 52)) by (apply pow2_le; lia).
  lra.
Qed.

Lemma Qfloor_unique (x : Q) (k : Z) :
  inject_Z k <= x -> x < inject_Z k + 1 -> Qfloor x = k.
Proof.
  intros L U. destruct (Qfloor_bounds x) as [L' U'].
  assert (A : (Qfloor x < k + 1)%Z).
  { rewrite Zlt_Qlt, inject_Z_plus. change (inject_Z 1) with 1. lra. }
  assert (B : (k < Qfloor x + 1)%Z).
  { rewrite Zlt_Qlt, inject_Z_plus. change (inject_Z 1) with 1. lra. }
  lia.
Qed.

(** Below 2^34 seconds the float of [total_seconds] has the whole seconds
    of the exact quotient. *)
Lemma int_total_seconds (us : Z) :
  (0 < us < 2 ^ 34 * us_per_second)%Z ->
  int_of_float (total_seconds us) = (us / us_per_second)%Z.
Proof.
  intros [H0 Hmax]. unfold total_seconds, us_per_second in *.
  set (q := inject_Z us / inject_Z 1000000).
  assert (Hq : 0 < q).
  { unfold q. apply Qlt_shift_div_l; [reflexivity |].
    rewrite Qmult_0_l. change 0 with (inject_Z 0). rewrite <- Zlt_Qlt. lia. }
  pose proof (b64_pos q Hq) as Hb.
  unfold int_of_float.
  destruct (Qcompare_spec (b64 q) 0) as [E | L | G]; try (exfalso; lra).
  set (k := (us / 1000000)%Z).
  assert (Hk : (0 <= k < 2 ^ 34)%Z).
  { unfold k. split; [apply Z.div_pos; lia |].
    apply Z.div_lt_upper_bound; lia. }
  assert (Em : us = (1000000 * k + us mod 1000000)%Z)
    by (unfold k; apply Z.div_mod; lia).
  pose proof (Z.mod_pos_bound us 1000000 ltac:(lia)) as Hm.
  assert (Eq : q * 1000000 == inject_Z us).
  { unfold q. change 1000000 with (inject_Z 1000000). field. }
  assert (Lq : inject_Z k <= q).
  { apply (Qmult_le_r _ _ 1000000); [reflexivity |]. rewrite Eq.
    change 1000000 with (inject_Z 1000000).
    rewrite <- inject_Z_mult, <- Zle_Qle. lia. }
  assert (Uq : q + (1 # 1000000) <= inject_Z k + 1).
  { apply (Qmult_le_r _ _ 1000000); [reflexivity |].
    setoid_replace ((q + (1 # 1000000)) * 1000000) with (q * 1000000 + 1) by ring.
    rewrite Eq. change 1000000 with (inject_Z 1000000). change 1 with (inject_Z 1).
    rewrite <- inject_Z_plus, <- inject_Z_plus, <- inject_Z_mult, <- Zle_Qle. lia. }
  apply Qfloor_unique.
  - rewrite <- (b64_inject_Z k) by lia. now apply b64_le.
  - assert (Hq34 : q < 2 ^ 34).
    { apply Qle_lt_trans with (inject_Z k + 1 - (1 # 1000000)); [lra |].
      assert (inject_Z k + 1 <= 2 ^ 34).
      { rewrite <- pow2_inject by lia. change 1 with (inject_Z 1).
        rewrite <- inject_Z_plus, <- Zle_Qle. lia. }
      lra. }
    pose proof (cexp_below q 34 Hq Hq34) as He.
    pose proof (b64_error q Hq) as Herr.
    assert (P : 2 ^ cexp q <= 2 ^ (-19)) by (apply pow2_le; lia).
    apply Qabs_Qle_condition in Herr. destruct Herr as [_ Herr].
    assert (C : (1 # 2) * 2 ^ (-19) < 1 # 1000000) by reflexivity.
    lra.
Qed.

(** ** The countdown *)

Lemma timedelta_Some (us td : Z) : timedelta us = Some td -> td = us.
Proof.
  unfold timedelta. destruct (_ && _); [| discriminate]. now intros [= <-].
Qed.

(** [total_seconds] has the sign of the timedelta. *)
Lemma total_seconds_nonpos (td : Z) :
  Qle_bool (total_seconds td) 0 = true <-> (td <= 0)%Z.
Proof.
  rewrite Qle_bool_iff. unfold total_seconds, us_per_second.
  set (q := inject_Z td / inject_Z 1000000).
  assert (Eq : q * 1000000 == inject_Z td).
  { unfold q. change 1000000 with (inject_Z 1000000). field. }
  split.
  - intros H. destruct (Z_le_gt_dec td 0) as [L | G]; [exact L | exfalso].
    assert (Hq : 0 < q).
    { apply (Qmult_lt_r _ _ 1000000); [reflexivity |]. rewrite Eq, Qmult_0_l.
      change 0 with (inject_Z 0). rewrite <- Zlt_Qlt. lia. }
    pose proof (b64_pos q Hq). lra.
  - intros H. apply b64_nonpos.
    apply (Qmult_le_r _ _ 1000000); [reflexivity |]. rewrite Eq, Qmult_0_l.
    change 0 with (inject_Z 0). rewrite <- Zle_Qle. exact H.
Qed.

(** What [display_timer] computes from the remaining microseconds, once
    the three timedeltas exist. *)
Lemma display_timer_remaining (now start m : Z) (r : bool * string) :
  display_timer now (Some start) m = Some r ->
  let remaining := (m * 60 * us_per_second - (now - start))%Z in
  r = if Qle_bool (total_seconds remaining) 0
      then (true, "00:00:00")
      else
        let total := int_of_float (total_seconds remaining) in
        (false,
         format_02d (total / 3600) ++ ":" ++ format_02d (total mod 3600 / 60)
         ++ ":" ++ format_02d ((total mod 3600) mod 60)).
Proof.
  unfold display_timer.
  destruct (timedelta (now - start)) as [elapsed |] eqn:E1; [| discriminate].
  destruct (timedelta (m * 60 * us_per_second)) as [limit |] eqn:E2; [| discriminate].
  destruct (timedelta (limit - elapsed)) as [remaining |] eqn:E3; [| discriminate].
  apply timedelta_Some in E1, E2, E3. subst. simpl.
  destruct (Qle_bool _ 0); now intros [= <-].
Qed.

Lemma length_append (s t : string) :
  String.length (s ++ t) = (String.length s + String.length t)%nat.
Proof. induction s as [| c s IH]; simpl; [reflexivity | now rewrite IH]. Qed.

Lemma format_02d_length_table :
  forallb (fun i => Nat.eqb (String.length (format_02d (Z.of_nat i))) 2)
          (seq 0 100) = true.
Proof. vm_compute. reflexivity. Qed.

Lemma format_02d_length (n : Z) :
  (0 <= n < 100)%Z -> String.length (format_02d n) = 2%nat.
Proof.
  intros H. pose proof format_02d_length_table as T.
  rewrite forallb_forall in T.
  specialize (T (Z.to_nat n)). rewrite Z2Nat.id in T by lia.
  apply Nat.eqb_eq, T. apply in_seq. lia.
Qed.

Lemma digits_read_back (n : Z) :
  (0 <= n)%Z ->
  option_map N.of_uint (NilZero.uint_of_string (digits n)) = Some (Z.to_N n).
Proof.
  intros _. unfold digits. rewrite NilZero.usu.
  - simpl. now rewrite DecimalN.Unsigned.of_to.
  - destruct (Z.to_N n); simpl; [discriminate |].
    apply DecimalPos.Unsigned.to_uint_nonnil.
Qed.

(** ** The score as a percentage *)

(** The relative error of a rounding is at most 2^-53. *)
Lemma b64_relative_error (q : Q) :
  0 < q -> Qabs (b64 q - q) <= q * 2 ^ (-53).
Proof.
  intros Hq. eapply Qle_trans; [now apply b64_error |].
  destruct (cexp_spec q Hq) as [Lo _].
  setoid_replace ((1 # 2) * 2 ^ cexp q) with (2 ^ (cexp q + 52) * 2 ^ (-53)).
  - apply Qmult_le_compat_r; [exact Lo | apply Qlt_le_weak, pow2_pos].
  - rewrite <- pow2_add. replace (cexp q + 52 + -53)%Z with (-1 + cexp q)%Z by lia.
    rewrite pow2_add. reflexivity.
Qed.

Lemma rne_unique (x : Q) (n : Z) :
  Qabs (x - inject_Z n) < 1 # 2 -> rne x = n.
Proof.
  intros H. pose proof (rne_nearest x) as N.
  apply Qabs_Qle_condition in N. destruct N as [N1 N2].
  assert (H' : - (1 # 2) < x - inject_Z n /\ x - inject_Z n < 1 # 2).
  { split.
    - destruct (Qlt_le_dec (- (1 # 2)) (x - inject_Z n)) as [L | G]; [exact L |].
      exfalso. rewrite Qabs_neg in H by lra. lra.
    - destruct (Qlt_le_dec (x - inject_Z n) (1 # 2)) as [L | G]; [exact L |].
      exfalso. rewrite Qabs_pos in H by lra. lra. }
  destruct H' as [H1 H2].
  assert (A : (rne x < n + 1)%Z).
  { rewrite Zlt_Qlt, inject_Z_plus. change (inject_Z 1) with 1. lra. }
  assert (B : (n < rne x + 1)%Z).
  { rewrite Zlt_Qlt, inject_Z_plus. change (inject_Z 1) with 1. lra. }
  lia.
Qed.

(** A score of [k] hundredths is shown as [k] followed by ".0". *)
Lemma score_text_hundredths (k : Z) :
  (0 <= k < 2 ^ 40)%Z ->
  score_text (b64 (inject_Z k / 100)) = digits k ++ ".0".
Proof.
  intros [H0 Hk].
  destruct (Z.eq_dec k 0) as [-> | N]; [vm_compute; reflexivity |].
  assert (Kpos : 0 < inject_Z k)
    by (change 0 with (inject_Z 0); rewrite <- Zlt_Qlt; lia).
  assert (Kmax : inject_Z k < inject_Z (2 ^ 40)) by (rewrite <- Zlt_Qlt; lia).
  set (q := inject_Z k / 100).
  assert (Eq : q * 100 == inject_Z k) by (unfold q; field).
  assert (Hq : 0 < q) by (apply (Qmult_lt_r _ _ 100); [reflexivity | lra]).
  set (x := b64 q).
  pose proof (b64_pos q Hq) as Hx. fold x in Hx.
  pose proof (b64_relative_error q Hq) as Ex. fold x in Ex.
  unfold score_text, fmul.
  assert (Hx100 : 0 < x * 100) by lra.
  set (y := b64 (x * 100)).
  pose proof (b64_pos _ Hx100) as Hy. fold y in Hy.
  pose proof (b64_relative_error _ Hx100) as Ey. fold y in Ey.
  apply Qabs_Qle_condition in Ex, Ey.
  assert (P : 2 ^ (-53) == 1 # 9007199254740992) by reflexivity.
  rewrite P in Ex, Ey.
  assert (M : inject_Z (2 ^ 40) == 1099511627776) by reflexivity.
  rewrite M in Kmax.
  assert (T : rne (Qabs y * 10) = (10 * k)%Z).
  { apply rne_unique. rewrite (Qabs_pos y) by lra.
    apply Qabs_Qlt_condition. rewrite inject_Z_mult.
    change (inject_Z 10) with 10. nra. }
  unfold format_1f. rewrite T.
  destruct (Qcompare_spec y 0) as [E | L | G]; try (exfalso; lra).
  rewrite (Z.mul_comm 10 k), Z.div_mul, Z.mod_mul by lia.
  reflexivity.
Qed.

Lemma req_matches_le_length (c : Challenge.t) (reqs : list string) :
  (req_matches c reqs <= List.length reqs)%nat.
Proof. rewrite req_matches_count. apply filter_length_le. Qed.

(** X12. On a catalog challenge, for a submission of at most 2^32
    requirement lines, the score is a whole number [k] of hundredths and the
    text [f"{score*100:.1f}"] shown in the report, the sheet and the mail is
    [k] followed by ".0", although [score*100] is not exact in floats. *)
Theorem score_text_of_response (c : Challenge.t) (reqs bugs imps : list string) :
  In c (code_samples init) ->
  (Z.of_nat (List.length reqs) <= 2 ^ 32)%Z ->
  exists (k : Z) (s : Q),
    evaluate_response init (Challenge.id c) reqs bugs imps = Ok s /\
    (0 <= k)%Z /\ s = b64 (inject_Z k / 100) /\
    score_text s = digits k ++ ".0".
Proof.
  intros Hc Hlen. unfold evaluate_response.
  rewrite (catalog_find c Hc). cbn [or_raise bind].
  rewrite (req_score_ok c reqs (catalog_key_nonempty c Hc)).
  rewrite bug_score_eq, imp_score_eq. cbn [bind].
  rewrite (catalog_key_length c Hc).
  pose proof (req_matches_le_length c reqs) as Hn.
  set (n := req_matches c reqs) in *.
  set (rq := b64 (inject_Z (Z.of_nat n) / inject_Z (Z.of_nat 7))).
  set (bg := fmin 1 (b64 (inject_Z (Z.of_nat (List.length bugs)) / inject_Z 3))).
  set (im := fmin 1 (b64 (inject_Z (Z.of_nat (List.length imps)) / inject_Z 3))).
  set (top := b64 (inject_Z (2 ^ 32) / inject_Z (Z.of_nat 7))).
  assert (E0 : rne (total_score (evaluation_criteria init) 0 0 0 * 100) = 0%Z)
    by (vm_compute; reflexivity).
  assert (E1 : (rne (total_score (evaluation_criteria init) top 1 1 * 100)
                < 2 ^ 40)%Z)
    by (vm_compute; reflexivity).
  assert (W1 : 0 <= correct_requirements (evaluation_criteria init))
    by (vm_compute; discriminate).
  assert (W2 : 0 <= identified_bugs (evaluation_criteria init))
    by (vm_compute; discriminate).
  assert (W3 : 0 <= code_improvements (evaluation_criteria init))
    by (vm_compute; discriminate).
  assert (Hrq : 0 <= rq <= top).
  { split.
    - apply b64_nonneg, Qdiv_nat_nonneg.
    - apply b64_le. apply Qmult_le_compat_r.
      + rewrite <- Zle_Qle. lia.
      + apply Qlt_le_weak, Qinv_lt_0_compat. reflexivity. }
  assert (Hbg : 0 <= bg <= 1).
  { apply fmin_bounds, b64_nonneg. apply (Qdiv_nat_nonneg _ 3). }
  assert (Him : 0 <= im <= 1).
  { apply fmin_bounds, b64_nonneg. apply (Qdiv_nat_nonneg _ 3). }
  clearbody top. generalize dependent (evaluation_criteria init).
  intros w E0 E1 W1 W2 W3.
  set (k := rne (total_score w rq bg im * 100)).
  assert (K0 : (0 <= k)%Z).
  { rewrite <- E0. apply rne_le. apply Qmult_le_compat_r; [| discriminate].
    unfold total_score. repeat first [apply fadd_le | apply fmul_le]; tauto. }
  assert (K1 : (k < 2 ^ 40)%Z).
  { eapply Z.le_lt_trans; [| exact E1]. apply rne_le.
    apply Qmult_le_compat_r; [| discriminate].
    unfold total_score. repeat first [apply fadd_le | apply fmul_le]; tauto. }
  exists k, (round2 (total_score w rq bg im)).
  split; [reflexivity |]. split; [exact K0 |]. split; [reflexivity |].
  unfold round2. fold k. apply score_text_hundredths. lia.
Qed.

Lemma score_text_of_response_witness :
  exists (k : Z) (s : Q),
    evaluate_response init 1
      ["Addition with overflow check"; "Division with zero check";
       "Power function with validation"; "Proper method documentation"]
      ["b1"; "b2"] ["i1"] = Ok s /\
    (0 <= k)%Z /\ s = b64 (inject_Z k / 100) /\
    score_text s = digits k ++ ".0".
Proof.
  apply (score_text_of_response simple_calculator).
  - simpl. auto.
  - vm_compute. discriminate.
Defined.

Lemma format_02d_small_table :
  forallb (fun i =>
             match option_map N.of_uint
                     (NilZero.uint_of_string (format_02d (Z.of_nat i))) with
             | Some v => N.eqb v (N.of_nat i)
             | None => false
             end) (seq 0 10) = true.
Proof. vm_compute. reflexivity. Qed.

(** X7. A field printed with [02d] reads back as the number printed, and a
    number below 100 takes exactly two characters. *)
Theorem format_02d_read_back (n : Z) :
  (0 <= n)%Z ->
  option_map N.of_uint (NilZero.uint_of_string (format_02d n)) = Some (Z.to_N n) /\
  ((n < 100)%Z -> String.length (format_02d n) = 2%nat).
Proof.
  intros H. split.
  2:{ intros Hlt. apply format_02d_length. lia. }
  destruct (Z.ltb_spec n 10) as [L | G].
  - pose proof format_02d_small_table as T. rewrite forallb_forall in T.
    specialize (T (Z.to_nat n)). rewrite Z2Nat.id in T by lia.
    assert (I : In (Z.to_nat n) (seq 0 10)) by (apply in_seq; lia).
    specialize (T I).
    destruct (option_map N.of_uint _) as [v |]; [| discriminate].
    apply N.eqb_eq in T. rewrite T. f_equal. lia.
  - unfold format_02d.
    destruct (Z.ltb_spec n 0) as [L | _]; [lia |].
    destruct (Z.ltb_spec n 10) as [L | _]; [lia |].
    now apply digits_read_back.
Qed.

Lemma format_02d_read_back_witness :
  option_map N.of_uint (NilZero.uint_of_string (format_02d 7)) = Some 7%N /\
  String.length (format_02d 7) = 2%nat.
Proof.
  destruct (format_02d_read_back 7 ltac:(lia)) as [A B].
  split; [exact A | apply B; lia].
Defined.

Lemma display_timer_up (now start m : Z) (up : bool) (text : string) :
  display_timer now (Some start) m = Some (up, text) ->
  (up = true <-> (m * 60 * us_per_second <= now - start)%Z) /\
  (up = true -> text = "00:00:00").
Proof.
  intros H. apply display_timer_remaining in H. cbv zeta in H.
  pose proof (total_seconds_nonpos (m * 60 * us_per_second - (now - start))) as S.
  destruct (Qle_bool _ 0); injection H as -> ->.
  - split; [| reflexivity]. split; [intros _ | reflexivity].
    assert (K : (m * 60 * us_per_second - (now - start) <= 0)%Z) by now apply S.
    lia.
  - split; [| discriminate]. split; [discriminate |]. intros K.
    assert (K2 : false = true) by (apply S; lia). discriminate.
Qed.

(** X8. [display_timer] reports that time is up exactly when the elapsed
    time has reached the limit, to the microsecond, and the text is then
    "00:00:00". *)
Theorem display_timer_up_iff (now start m : Z) (up : bool) (text : string) :
  display_timer now (Some start) m = Some (up, text) ->
  (up = true <-> (m * 60 * us_per_second <= now - start)%Z) /\
  (up = true -> text = "00:00:00").
Proof. apply display_timer_up. Qed.

Lemma display_timer_up_iff_witness :
  display_timer 2700000000 (Some 0%Z) 45 = Some (true, "00:00:00") /\
  (45 * 60 * us_per_second <= 2700000000 - 0)%Z.
Proof.
  assert (E : display_timer 2700000000 (Some 0%Z) 45 = Some (true, "00:00:00"))
    by (vm_compute; reflexivity).
  split; [exact E |].
  apply (proj1 (display_timer_up_iff _ _ _ _ _ E)). reflexivity.
Defined.

(** X9. While time is not up and less than 2^34 seconds remain, the text
    is hours, minutes and seconds of the remaining time rounded down to
    whole seconds; minutes and seconds are below 60; below 100 hours the
    text has exactly 8 characters. *)
Theorem display_timer_text (now start m : Z) (text : string) :
  display_timer now (Some start) m = Some (false, text) ->
  let remaining := (m * 60 * us_per_second - (now - start))%Z in
  (remaining < 2 ^ 34 * us_per_second)%Z ->
  exists h mi s : Z,
    text = format_02d h ++ ":" ++ format_02d mi ++ ":" ++ format_02d s /\
    (0 <= h)%Z /\ (0 <= mi < 60)%Z /\ (0 <= s < 60)%Z /\
    (h * 3600 + mi * 60 + s = remaining / us_per_second)%Z /\
    ((h < 100)%Z -> String.length text = 8%nat).
Proof.
  intros H remaining Hmax.
  pose proof (display_timer_up _ _ _ _ _ H) as [U _].
  assert (Hpos : (0 < remaining)%Z).
  { unfold remaining.
    destruct (Z_lt_le_dec 0 (m * 60 * us_per_second - (now - start))) as [P | N];
      [exact P | exfalso].
    assert (K : false = true) by (apply U; lia). discriminate. }
  apply display_timer_remaining in H. cbv zeta in H. fold remaining in H.
  destruct (Qle_bool (total_seconds remaining) 0); [discriminate |].
  rewrite (int_total_seconds remaining) in H by lia.
  injection H as ->.
  set (R := (remaining / us_per_second)%Z).
  assert (HR : (0 <= R)%Z) by (apply Z.div_pos; [lia | reflexivity]).
  pose proof (Z.mod_pos_bound R 3600 ltac:(lia)) as M1.
  pose proof (Z.mod_pos_bound (R mod 3600) 60 ltac:(lia)) as M2.
  assert (D1 : (0 <= R / 3600)%Z) by (apply Z.div_pos; lia).
  assert (D2 : (0 <= R mod 3600 / 60 < 60)%Z).
  { split; [apply Z.div_pos; lia | apply Z.div_lt_upper_bound; lia]. }
  exists (R / 3600)%Z, (R mod 3600 / 60)%Z, ((R mod 3600) mod 60)%Z.
  split; [reflexivity |]. split; [exact D1 |]. split; [exact D2 |].
  split; [exact M2 |]. split.
  - pose proof (Z.div_mod R 3600 ltac:(lia)).
    pose proof (Z.div_mod (R mod 3600) 60 ltac:(lia)). lia.
  - intros Hh. rewrite length_append. cbn [append String.length].
    rewrite length_append. cbn [append String.length].
    rewrite !format_02d_length by lia. reflexivity.
Qed.

Lemma display_timer_text_witness :
  exists h mi s : Z,
    "00:44:59" = format_02d h ++ ":" ++ format_02d mi ++ ":" ++ format_02d s /\
    (0 <= h)%Z /\ (0 <= mi < 60)%Z /\ (0 <= s < 60)%Z /\
    (h * 3600 + mi * 60 + s = (45 * 60 * us_per_second - (1 - 0)) / us_per_second)%Z /\
    ((h < 100)%Z -> String.length "00:44:59" = 8%nat).
Proof.
  assert (E : display_timer 1 (Some 0%Z) 45 = Some (false, "00:44:59"))
    by (vm_compute; reflexivity).
  apply (display_timer_text 1 0 45 "00:44:59" E). reflexivity.
Defined.

(** X10. Once [display_timer] has reported that time is up it reports so
    at every later reading of the clock. *)
Theorem display_timer_sticky (now1 now2 start m : Z) (t1 t2 : string) (up2 : bool) :
  display_timer now1 (Some start) m = Some (true, t1) ->
  (now1 <= now2)%Z ->
  display_timer now2 (Some start) m = Some (up2, t2) ->
  up2 = true /\ t2 = "00:00:00".
Proof.
  intros H1 Hle H2.
  pose proof (display_timer_up _ _ _ _ _ H1) as [U1 _].
  pose proof (display_timer_up _ _ _ _ _ H2) as [U2 T2].
  assert (L1 : (m * 60 * us_per_second <= now1 - start)%Z) by now apply U1.
  assert (K : up2 = true) by (apply U2; lia).
  split; [exact K | now apply T2].
Qed.

Lemma display_timer_sticky_witness :
  true = true /\ "00:00:00" = "00:00:00".
Proof.
  apply (display_timer_sticky 2700000000 2700000001 0 45 "00:00:00" "00:00:00" true).
  - vm_compute. reflexivity.
  - lia.
  - vm_compute. reflexivity.
Defined.

(** X11. With datetimes of the calendar and a limit of at most 10^12
    minutes in absolute value, [display_timer] raises no OverflowError. *)
Theorem display_timer_no_overflow (now start m : Z) :
  datetime_range now -> datetime_range start ->
  (- 10 ^ 12 <= m <= 10 ^ 12)%Z ->
  exists r, display_timer now (Some start) m = Some r.
Proof.
  unfold datetime_range, display_timer, timedelta, us_per_day, us_per_second.
  intros Hn Hs Hm.
  destruct (andb _ _) eqn:E1.
  2:{ apply andb_false_iff in E1. destruct E1 as [E | E].
      - apply Z.leb_gt in E. lia.
      - apply Z.ltb_ge in E. lia. }
  destruct (andb _ _) eqn:E2 in |- *.
  2:{ apply andb_false_iff in E2. destruct E2 as [E | E].
      - apply Z.leb_gt in E. lia.
      - apply Z.ltb_ge in E. lia. }
  destruct (andb _ _) eqn:E3 in |- *.
  2:{ apply andb_false_iff in E3. destruct E3 as [E | E].
      - apply Z.leb_gt in E. lia.
      - apply Z.ltb_ge in E. lia. }
  destruct (Qle_bool _ 0); eexists; reflexivity.
Qed.

Lemma display_timer_no_overflow_witness :
  exists r, display_timer 5000000 (Some 1000000%Z) 45 = Some r.
Proof.
  apply display_timer_no_overflow; unfold datetime_range; vm_compute;
    intuition discriminate.
Defined.

(** ** Errors and monotonicity of the score *)

Lemma fmin_le (x y : Q) : x <= y -> fmin 1 x <= fmin 1 y.
Proof.
  intros H. unfold fmin.
  destruct (Qcompare_spec x 1) as [E1 | L1 | G1];
    destruct (Qcompare_spec y 1) as [E2 | L2 | G2]; lra.
Qed.

Lemma count_score_le (n m : nat) :
  (n <= m)%nat ->
  fmin 1 (b64 (inject_Z (Z.of_nat n) / inject_Z 3)) <=
  fmin 1 (b64 (inject_Z (Z.of_nat m) / inject_Z 3)).
Proof.
  intros H. apply fmin_le, b64_le. apply (Qdiv_le_nat n m 3); lia.
Qed.

(** X18. [evaluate_response] raises StopIteration exactly when no record
    has the given id, ZeroDivisionError only when the record found has an
    empty answer key, and nothing else; on the catalog an id other than 1
    and 2 raises StopIteration whatever the submission. *)
Theorem evaluate_response_errors (self : LegacyJavaCodeChallenge)
    (challenge_id : Z) (reqs bugs imps : list string) :
  match evaluate_response self challenge_id reqs bugs imps with
  | Raise StopIteration =>
      forall c, In c (code_samples self) -> Challenge.id c <> challenge_id
  | Raise ZeroDivisionError =>
      exists c, In c (code_samples self) /\ Challenge.id c = challenge_id /\
                Challenge.expected_requirements c = []
  | Raise IndexError => False
  | Ok _ =>
      exists c, In c (code_samples self) /\ Challenge.id c = challenge_id /\
                Challenge.expected_requirements c <> []
  end /\
  (challenge_id <> 1%Z -> challenge_id <> 2%Z ->
   evaluate_response init challenge_id reqs bugs imps = Raise StopIteration).
Proof.
  split.
  - unfold evaluate_response.
    destruct (find _ (code_samples self)) as [c |] eqn:F; cbn [or_raise bind].
    + apply find_some in F. destruct F as [Hin Hid]. apply Z.eqb_eq in Hid.
      unfold req_score, int_truediv.
      destruct (Challenge.expected_requirements c) as [| r key] eqn:K.
      * simpl. exists c. auto.
      * cbn [List.length]. destruct (Z.eqb_spec (Z.of_nat (S (List.length key))) 0)
          as [E | _]; [lia |].
        cbn [or_raise bind]. rewrite bug_score_eq, imp_score_eq. cbn [bind].
        exists c. rewrite K. repeat split; auto. discriminate.
    + intros c Hc E. pose proof (find_none _ _ F c Hc) as N. simpl in N.
      apply Z.eqb_neq in N. contradiction.
  - intros N1 N2. unfold evaluate_response.
    assert (F : find (fun c => (Challenge.id c =? challenge_id)%Z)
                  (code_samples init) = None).
    { change (code_samples init)
        with [simple_calculator; multi_layer_authentication].
      cbn [find]. change (Challenge.id simple_calculator) with 1%Z.
      change (Challenge.id multi_layer_authentication) with 2%Z.
      destruct (Z.eqb_spec 1 challenge_id) as [E | _]; [congruence |].
      destruct (Z.eqb_spec 2 challenge_id) as [E | _]; [congruence |].
      reflexivity. }
    now rewrite F.
Qed.

Lemma evaluate_response_errors_witness :
  evaluate_response init 3 ["Division with zero check"] [] []
  = Raise StopIteration.
Proof.
  apply (proj2 (evaluate_response_errors init 3 ["Division with zero check"]
                  [] [])); discriminate.
Defined.

(** X19. More never scores less: on a catalog challenge, adding entries to
    the requirements, the bugs or the improvements never lowers the score
    returned by [evaluate_response]. *)
Theorem evaluate_response_monotone (c : Challenge.t)
    (reqs reqs' bugs bugs' imps imps' : list string) :
  In c (code_samples init) ->
  exists s s' : Q,
    evaluate_response init (Challenge.id c) reqs bugs imps = Ok s /\
    evaluate_response init (Challenge.id c)
      (reqs ++ reqs') (bugs ++ bugs') (imps ++ imps') = Ok s' /\
    (s <= s')%Q.
Proof.
  intros Hc. unfold evaluate_response.
  rewrite (catalog_find c Hc). cbn [or_raise bind].
  rewrite (req_score_ok c reqs (catalog_key_nonempty c Hc)).
  rewrite (req_score_ok c (reqs ++ reqs') (catalog_key_nonempty c Hc)).
  rewrite (bug_score_eq bugs), (bug_score_eq (bugs ++ bugs')).
  rewrite (imp_score_eq imps), (imp_score_eq (imps ++ imps')). cbn [bind].
  eexists. eexists. split; [reflexivity |]. split; [reflexivity |].
  assert (W1 : 0 <= correct_requirements (evaluation_criteria init))
    by (vm_compute; discriminate).
  assert (W2 : 0 <= identified_bugs (evaluation_criteria init))
    by (vm_compute; discriminate).
  assert (W3 : 0 <= code_improvements (evaluation_criteria init))
    by (vm_compute; discriminate).
  generalize dependent (evaluation_criteria init). intros w W1 W2 W3.
  apply round2_le. unfold total_score.
  apply fadd_le; [apply fadd_le |]; apply fmul_le; try assumption.
  - apply b64_le, Qdiv_le_nat.
    + rewrite (catalog_key_length c Hc). lia.
    + rewrite req_matches_app. lia.
  - apply count_score_le. rewrite length_app. lia.
  - apply count_score_le. rewrite length_app. lia.
Qed.

Lemma evaluate_response_monotone_witness :
  exists s s' : Q,
    evaluate_response init 1 ["Division with zero check"] [] ["i1"] = Ok s /\
    evaluate_response init 1
      (["Division with zero check"] ++ ["x"]) ([] ++ ["b1"]) (["i1"] ++ [])
    = Ok s' /\ (s <= s')%Q.
Proof.
  apply (evaluate_response_monotone simple_calculator). simpl. auto.
Defined.

(** X20. A submission whose requirement entries are pairwise different
    scores between 0 and 1 on every challenge of the catalog. *)
Theorem score_between_0_and_1 (c : Challenge.t) (reqs bugs imps : list string) :
  In c (code_samples init) ->
  NoDup reqs ->
  exists s, evaluate_response init (Challenge.id c) reqs bugs imps = Ok s /\
            0 <= s <= 1.
Proof. apply score_in_unit_interval. Qed.

Lemma score_between_0_and_1_witness :
  exists s, evaluate_response init 2
              ["Thread-safe implementation"; "x"] ["b1"] [] = Ok s /\
            0 <= s <= 1.
Proof.
  apply (score_between_0_and_1 multi_layer_authentication).
  - simpl. auto.
  - repeat constructor; simpl; intuition discriminate.
Defined.

(** X21. The score looks at counts only: two submissions with the same
    number of requirement entries found in the answer key, and with bug and
    improvement lists of equal length or both of three entries or more, get
    the same result, whatever the entries say. *)
Theorem evaluate_response_counts_only (self : LegacyJavaCodeChallenge)
    (challenge_id : Z) (reqs reqs' bugs bugs' imps imps' : list string) :
  (forall c, In c (code_samples self) ->
             req_matches c reqs = req_matches c reqs') ->
  Nat.min (List.length bugs) 3 = Nat.min (List.length bugs') 3 ->
  Nat.min (List.length imps) 3 = Nat.min (List.length imps') 3 ->
  evaluate_response self challenge_id reqs bugs imps =
  evaluate_response self challenge_id reqs' bugs' imps'.
Proof.
  intros Hr Hb Hi.
  assert (S : forall n m, Nat.min n 3 = Nat.min m 3 ->
                fmin 1 (b64 (inject_Z (Z.of_nat n) / inject_Z 3)) =
                fmin 1 (b64 (inject_Z (Z.of_nat m) / inject_Z 3))).
  { intros n m H.
    destruct (Nat.le_gt_cases 3 n) as [Ln | Ln];
      destruct (Nat.le_gt_cases 3 m) as [Lm | Lm].
    - now rewrite !count_score_saturated.
    - exfalso. lia.
    - exfalso. lia.
    - assert (n = m) by lia. now subst. }
  unfold evaluate_response.
  destruct (find _ (code_samples self)) as [c |] eqn:F; [| reflexivity].
  apply find_some in F. destruct F as [Hc _].
  cbn [or_raise bind]. unfold req_score. rewrite (Hr c Hc).
  rewrite (bug_score_eq bugs), (bug_score_eq bugs').
  rewrite (imp_score_eq imps), (imp_score_eq imps').
  now rewrite (S _ _ Hb), (S _ _ Hi).
Qed.

Lemma evaluate_response_counts_only_witness :
  evaluate_response init 1 ["Division with zero check"; "x"]
    ["a"; "b"; "c"] ["i"] =
  evaluate_response init 1 ["y"; "Proper method documentation"]
    ["d"; "e"; "f"; "g"] ["j"].
Proof.
  apply evaluate_response_counts_only; try reflexivity.
  intros c Hc. destruct (catalog_cases c Hc) as [-> | ->]; reflexivity.
Defined.

(** * The page script *)

Lemma timer_block_session (i : inputs) (s s1 : Session.t) (log : list effect) :
  timer_block i s = Some (s1, log) ->
  Session.challenge s1 = Session.challenge s /\
  Session.show_hints s1 = Session.show_hints s /\
  Session.submitted s1 = Session.submitted s /\
  Session.start_time s1 = Session.start_time s /\
  (Session.time_up s = true -> Session.time_up s1 = true) /\
  (Session.time_up s1 = true ->
   Session.time_up s = true \/ Session.start_time s <> None) /\
  existsb is_delivery log = false.
Proof.
  unfold timer_block. destruct (Session.start_time s) as [st |] eqn:E.
  - destruct (display_timer _ _ _) as [[[|] text] |]; [| | discriminate];
      intros [= <- <-]; simpl; rewrite ?E; repeat split; auto.
    intros _. right. discriminate.
  - intros [= <- <-]. simpl. repeat split; auto.
Qed.

(** While the timer block lets the time run, the limit of 45 minutes is
    not reached. *)
Lemma timer_block_running (i : inputs) (s s1 : Session.t) (log : list effect)
    (st : Z) :
  timer_block i s = Some (s1, log) ->
  Session.start_time s = Some st ->
  Session.time_up s1 = false ->
  (now_timer i - st < 45 * 60 * us_per_second)%Z.
Proof.
  unfold timer_block. intros H E. rewrite E in H.
  destruct (display_timer _ _ _) as [[up text] |] eqn:D; [| discriminate].
  pose proof (display_timer_up _ _ _ _ _ D) as [U _].
  destruct up; injection H as <- <-; simpl; [discriminate |].
  intros _. destruct (Z_lt_le_dec (now_timer i - st) (45 * 60 * us_per_second))
    as [L | G]; [exact L |].
  assert (K : false = true) by (apply U; exact G). discriminate.
Qed.

Section PageFacts.

Variable rng : Type.
Variable randbelow : rng -> nat -> nat * rng.

Lemma submit_block_session (self : LegacyJavaCodeChallenge) (i : inputs)
    (s : Session.t) (c : Challenge.t) (log : list effect) :
  let r := submit_block self i s c log in
  Session.challenge (session r) = Session.challenge s /\
  Session.show_hints (session r) = Session.show_hints s /\
  Session.start_time (session r) = Session.start_time s /\
  Session.time_up (session r) = Session.time_up s.
Proof.
  unfold submit_block.
  destruct (_ || _); [simpl; auto |].
  destruct (evaluate_response _ _ _ _ _); [| simpl; auto].
  destruct (email_sent i); simpl; auto.
Qed.

Lemma consistent_initial : consistent initial_session.
Proof. repeat split; simpl; congruence. Qed.

(** Every run of the page keeps the session consistent. *)
Lemma main_consistent (i : inputs) (g : rng) (previous : option Session.t) :
  (forall s, previous = Some s -> consistent s) ->
  consistent (session (fst (main rng randbelow i g previous))).
Proof.
  intros Hprev.
  assert (H0 : consistent (match previous with
                           | Some s => s
                           | None => initial_session
                           end)).
  { destruct previous as [s |]; [now apply Hprev | apply consistent_initial]. }
  unfold main. set (s0 := match previous with Some s => s | None => _ end) in *.
  clearbody s0. clear Hprev.
  destruct (timer_block i s0) as [[s1 log] |] eqn:T; [| exact H0].
  destruct (timer_block_session _ _ _ _ T) as [Ec [Eh [Es [Et [_ [Eu _]]]]]].
  destruct H0 as [A [B [C D]]].
  assert (D1 : Session.time_up s1 = true -> Session.start_time s1 <> None).
  { intros U. rewrite Et. destruct (Eu U) as [K | K]; auto. }
  rewrite <- Ec, <- Es in A. rewrite <- Ec, <- Eh in B.
  rewrite <- Ec, <- Et in C.
  clear Ec Eh Es Et Eu D T.
  destruct (get_challenge_clicked i).
  - destruct (get_challenge_by_difficulty _ _ _ _ _) as [[chosen | e] g'];
      simpl; repeat split; simpl; auto; congruence.
  - destruct (Session.challenge s1) as [c |] eqn:Ec; rewrite ?Ec in A, B, C;
      simpl.
    + destruct (toggle_hints_clicked i); simpl.
      { repeat split; simpl; auto; rewrite ?Ec; congruence. }
      destruct (negb (Session.submitted s1) && negb (Session.time_up s1)
                && submit_clicked i).
      { set (s2 := Session.mk _ _ _ _ _ _ _ _).
        destruct (submit_block_session init i s2 c log) as [Rc [Rh [Rt Ru]]].
        cbv zeta in *. cbn [fst]. unfold consistent. rewrite Rc, Rh, Rt, Ru.
        unfold s2. simpl. rewrite ?Ec. repeat split; auto; congruence. }
      destruct (Session.submitted s1 && try_another_clicked i); simpl;
        repeat split; simpl; auto; rewrite ?Ec; try congruence.
    + destruct (Session.submitted s1 && try_another_clicked i); simpl;
        repeat split; simpl; auto; rewrite ?Ec; try congruence.
Qed.

Lemma no_delivery_in (log : list effect) (e : effect) :
  existsb is_delivery log = false -> In e log -> is_delivery e = true -> False.
Proof.
  intros H Hin He.
  assert (K : existsb is_delivery log = true)
    by (apply existsb_exists; exists e; auto).
  congruence.
Qed.

(** What a delivery in a run tells about the run. *)
Lemma main_delivery (i : inputs) (g : rng) (previous : option Session.t)
    (e : effect) :
  In e (effects (fst (main rng randbelow i g previous))) ->
  is_delivery e = true ->
  exists (s : Session.t) (c : Challenge.t) (score : Q),
    previous = Some s /\
    Session.challenge s = Some c /\
    Session.submitted s = false /\
    Session.time_up s = false /\
    (forall st, Session.start_time s = Some st ->
                (now_timer i - st < 45 * 60 * us_per_second)%Z) /\
    get_challenge_clicked i = false /\
    submit_clicked i = true /\
    in_team_name i <> EmptyString /\ in_email i <> EmptyString /\
    evaluate_response init (Challenge.id c)
      (response_lines (in_requirements i)) (response_lines (in_bugs i))
      (response_lines (in_improvements i)) = Ok score /\
    (e = SaveToSheet (in_team_name i) (in_email i) (Challenge.name c)
           (in_requirements i) (in_bugs i) (in_improvements i) score \/
     e = SendEmail (in_team_name i) (in_email i) (Challenge.name c)
           (in_requirements i) (in_bugs i) (in_improvements i) score) /\
    Session.submitted (session (fst (main rng randbelow i g previous))) = true.
Proof.
  unfold main.
  set (s0 := match previous with Some s => s | None => initial_session end).
  destruct (timer_block i s0) as [[s1 log] |] eqn:T; [| intros []].
  destruct (timer_block_session _ _ _ _ T) as [Ec [_ [Es [Et [Eu [_ Hlog]]]]]].
  pose proof (timer_block_running i s0 s1 log) as Run.
  destruct (get_challenge_clicked i).
  { destruct (get_challenge_by_difficulty _ _ _ _ _) as [[chosen | x] g'];
      simpl; intros Hin He; exfalso; eapply no_delivery_in; eauto. }
  destruct (Session.challenge s1) as [c |] eqn:Ec1; simpl.
  2:{ destruct (Session.submitted s1 && try_another_clicked i); simpl;
        intros Hin He; exfalso; eapply no_delivery_in; eauto. }
  destruct (toggle_hints_clicked i); simpl.
  { intros Hin He; exfalso; eapply no_delivery_in; eauto. }
  destruct (negb (Session.submitted s1) && negb (Session.time_up s1)
            && submit_clicked i) eqn:Open.
  2:{ destruct (Session.submitted s1 && try_another_clicked i); simpl;
        intros Hin He; exfalso; eapply no_delivery_in; eauto. }
  apply andb_prop in Open. destruct Open as [Open Hsub].
  apply andb_prop in Open. destruct Open as [Hns Hnu].
  apply negb_true_iff in Hns, Hnu.
  assert (Hprev : previous = Some s0).
  { destruct previous as [s |]; [reflexivity |].
    unfold s0 in Ec. simpl in Ec. congruence. }
  assert (Hu0 : Session.time_up s0 = false).
  { destruct (Session.time_up s0); [| reflexivity].
    rewrite Eu in Hnu by reflexivity. discriminate. }
  unfold submit_block. cbn [Session.team_name Session.candidate_email].
  destruct (in_team_name i) as [| a1 t1] eqn:Etn.
  { simpl. intros Hin He. exfalso. apply in_app_or in Hin.
    destruct Hin as [Hin | [<- | []]]; [| discriminate].
    eapply no_delivery_in; eauto. }
  destruct (in_email i) as [| a2 t2] eqn:Eem.
  { simpl. intros Hin He. exfalso. apply in_app_or in Hin.
    destruct Hin as [Hin | [<- | []]]; [| discriminate].
    eapply no_delivery_in; eauto. }
  cbn [truthy negb orb Challenge.id].
  destruct (evaluate_response init (Challenge.id c) _ _ _) as [score | x] eqn:Ev.
  2:{ simpl. intros Hin He. exfalso. eapply no_delivery_in; eauto. }
  intros Hin He.
  exists s0, c, score.
  split; [exact Hprev |]. split; [congruence |]. split; [congruence |].
  split; [exact Hu0 |].
  split; [intros st Hst; exact (Run st T Hst Hnu) |].
  split; [reflexivity |]. split; [exact Hsub |].
  split; [discriminate |]. split; [discriminate |].
  split; [exact Ev |].
  split.
  - destruct (email_sent i) as [sent |]; simpl in Hin;
      apply in_app_or in Hin; destruct Hin as [Hin | Hin];
      try (exfalso; eapply no_delivery_in; eauto; fail);
      simpl in Hin.
    + destruct Hin as [<- | [<- | [<- | []]]]; [now left | now right |].
      exfalso. destruct (sheet_saved i), sent; discriminate.
    + destruct Hin as [<- | [<- | []]]; [now left | now right].
  - destruct (email_sent i); reflexivity.
Qed.

End PageFacts.

Section PageTheorems.

Variable rng : Type.
Variable randbelow : rng -> nat -> nat * rng.

(** X13. Every session reachable from a new browser session is consistent:
    a submitted response or shown hints come with a challenge, a challenge
    comes with a start time, and time is up only after a start. *)
Theorem reachable_consistent (s : Session.t) :
  reachable rng randbelow s -> consistent s.
Proof.
  induction 1 as [i g | i g s R IH].
  - apply main_consistent. discriminate.
  - apply main_consistent. now intros s' [= <-].
Qed.

(** X14. A run calls [save_to_google_sheet] or [send_email_with_pdf] only
    for a session that has a challenge, is not submitted yet and whose 45
    minutes are not over, when the submit button was pressed, "Get
    Challenge" was not, and team name and email are not empty; the score
    passed on is the result of [evaluate_response] on the entries of the
    three text areas, and the session is marked submitted. *)
Theorem delivery_requires_open_session (i : inputs) (g : rng)
    (previous : option Session.t) (e : effect) :
  In e (effects (fst (main rng randbelow i g previous))) ->
  is_delivery e = true ->
  exists (s : Session.t) (c : Challenge.t) (score : Q),
    previous = Some s /\
    Session.challenge s = Some c /\
    Session.submitted s = false /\
    Session.time_up s = false /\
    (forall st, Session.start_time s = Some st ->
                (now_timer i - st < 45 * 60 * us_per_second)%Z) /\
    get_challenge_clicked i = false /\
    submit_clicked i = true /\
    in_team_name i <> EmptyString /\ in_email i <> EmptyString /\
    evaluate_response init (Challenge.id c)
      (response_lines (in_requirements i)) (response_lines (in_bugs i))
      (response_lines (in_improvements i)) = Ok score /\
    (e = SaveToSheet (in_team_name i) (in_email i) (Challenge.name c)
           (in_requirements i) (in_bugs i) (in_improvements i) score \/
     e = SendEmail (in_team_name i) (in_email i) (Challenge.name c)
           (in_requirements i) (in_bugs i) (in_improvements i) score) /\
    Session.submitted (session (fst (main rng randbelow i g previous))) = true.
Proof. apply main_delivery. Qed.

(** X15. Nothing is saved or mailed by a run from a session that is
    already submitted, or whose time is up, or whose start time lies 45
    minutes or more before the clock, nor when the team name or the email
    is empty. *)
Theorem closed_session_delivers_nothing (i : inputs) (g : rng)
    (s : Session.t) (e : effect) :
  Session.submitted s = true \/ Session.time_up s = true \/
  (exists st, Session.start_time s = Some st /\
              (45 * 60 * us_per_second <= now_timer i - st)%Z) \/
  in_team_name i = EmptyString \/ in_email i = EmptyString ->
  In e (effects (fst (main rng randbelow i g (Some s)))) ->
  is_delivery e = false.
Proof.
  intros H Hin. destruct (is_delivery e) eqn:He; [exfalso | reflexivity].
  destruct (main_delivery rng randbelow i g (Some s) e Hin He)
    as [s' [c [score [[= <-] [_ [Hs [Hu [Ht [_ [_ [Hn [Hm _]]]]]]]]]]]].
  destruct H as [H | [H | [[st [E L]] | [H | H]]]]; try congruence.
  specialize (Ht st E). lia.
Qed.

(** X16. Time that is up stays up: from a session whose time is up, every
    run in which "Get Challenge" is not pressed leaves a session whose time
    is up. *)
Theorem time_up_until_new_challenge (i : inputs) (g : rng) (s : Session.t) :
  Session.time_up s = true ->
  get_challenge_clicked i = false ->
  Session.time_up (session (fst (main rng randbelow i g (Some s)))) = true.
Proof.
  intros Hu Hg. unfold main. rewrite Hg.
  destruct (timer_block i s) as [[s1 log] |] eqn:T; [| exact Hu].
  destruct (timer_block_session _ _ _ _ T) as [_ [_ [_ [_ [Eu _]]]]].
  specialize (Eu Hu).
  destruct (Session.challenge s1) as [c |]; simpl.
  - destruct (toggle_hints_clicked i); simpl; [exact Eu |].
    rewrite Eu. rewrite andb_false_r. simpl.
    destruct (Session.submitted s1 && try_another_clicked i); reflexivity.
  - destruct (Session.submitted s1 && try_another_clicked i); exact Eu.
Qed.

(** The contract of the random source. *)
Hypothesis randbelow_lt :
  forall g n, (0 < n)%nat -> (fst (randbelow g n) < n)%nat.

(** X17. Pressing "Get Challenge" with one of the two options of the
    select box always gives the challenge of that difficulty, whatever the
    random source draws, hides the hints, clears the submitted mark, starts
    the clock at the time of the click and asks for a rerun, provided the
    timer block raised nothing. *)
Theorem get_challenge_run (i : inputs) (g : rng) (previous : option Session.t) :
  get_challenge_clicked i = true ->
  in_difficulty i = "Easy" \/ in_difficulty i = "Hard" ->
  let r := fst (main rng randbelow i g previous) in
  ended r <> Uncaught ->
  ended r = Rerun /\
  Session.challenge (session r) =
    Some (if in_difficulty i =? "Easy" then simple_calculator
          else multi_layer_authentication) /\
  Session.show_hints (session r) = false /\
  Session.submitted (session r) = false /\
  Session.time_up (session r) = false /\
  Session.start_time (session r) = Some (now_clicked i) /\
  Session.team_name (session r) = in_team_name i /\
  Session.candidate_email (session r) = in_email i /\
  Session.difficulty (session r) = in_difficulty i.
Proof.
  intros Hg Hd. unfold main. rewrite Hg.
  destruct (timer_block i _) as [[s1 log] |]; [| simpl; congruence].
  cbn [Session.difficulty].
  assert (E : fst (get_challenge_by_difficulty rng randbelow init g (in_difficulty i))
              = Ok (Some (if in_difficulty i =? "Easy" then simple_calculator
                          else multi_layer_authentication))).
  { unfold get_challenge_by_difficulty.
    destruct Hd as [-> | ->].
    - change (filter_by_difficulty init "Easy") with [simple_calculator].
      unfold choice. pose proof (randbelow_lt g 1 ltac:(lia)) as L.
      simpl List.length. destruct (randbelow g 1) as [k g']. simpl in L.
      assert (k = 0%nat) by lia. subst k. reflexivity.
    - change (filter_by_difficulty init "Hard") with [multi_layer_authentication].
      unfold choice. pose proof (randbelow_lt g 1 ltac:(lia)) as L.
      simpl List.length. destruct (randbelow g 1) as [k g']. simpl in L.
      assert (k = 0%nat) by lia. subst k. reflexivity. }
  destruct (get_challenge_by_difficulty _ _ _ _ _) as [[chosen | x] g'];
    simpl in E; [| discriminate].
  injection E as ->. simpl. intros _. repeat split.
Qed.

End PageTheorems.

Lemma reachable_consistent_witness :
  consistent (session (fst example_second_run)) /\
  Session.challenge (session (fst example_second_run))
    = Some simple_calculator /\
  Session.submitted (session (fst example_second_run)) = true /\
  Session.start_time (session (fst example_second_run)) = Some 0%Z /\
  Session.challenge (session (fst example_first_run))
    = Some simple_calculator.
Proof.
  split.
  - apply (reachable_consistent nat counter_randbelow).
    unfold example_second_run. apply reachable_next.
    unfold example_first_run. apply reachable_first.
  - repeat split; vm_compute; reflexivity.
Defined.

Lemma delivery_requires_open_session_witness :
  exists (s : Session.t) (c : Challenge.t) (score : Q),
    Some example_session = Some s /\
    Session.challenge s = Some c /\
    Session.submitted s = false /\
    evaluate_response init (Challenge.id c)
      (response_lines (in_requirements example_inputs))
      (response_lines (in_bugs example_inputs))
      (response_lines (in_improvements example_inputs)) = Ok score.
Proof.
  destruct (delivery_requires_open_session nat counter_randbelow
              example_inputs 0%nat (Some example_session)
              (SaveToSheet "Team A" "a@example.org" "Simple Calculator"
                 "Division with zero check" "b1" EmptyString (b64 (2 # 10))))
    as [s [c [score [A [B [C [_ [_ [_ [_ [_ [_ [D _]]]]]]]]]]]]].
  - vm_compute. auto.
  - reflexivity.
  - exists s, c, score. auto.
Defined.

Lemma closed_session_delivers_nothing_witness :
  is_delivery (TimeRemaining "00:44:00") = false.
Proof.
  apply (closed_session_delivers_nothing nat counter_randbelow example_inputs
           0%nat (Session.mk (Some simple_calculator) false true EmptyString
                    EmptyString (Some 0%Z) false "Easy")).
  - left. reflexivity.
  - vm_compute. auto.
Defined.

Lemma time_up_until_new_challenge_witness :
  Session.time_up
    (session (fst (main nat counter_randbelow example_inputs 0%nat
                     (Some (Session.mk (Some simple_calculator) false false
                              EmptyString EmptyString (Some 0%Z) true
                              "Easy"))))) = true.
Proof.
  apply time_up_until_new_challenge; reflexivity.
Defined.

Lemma get_challenge_run_witness :
  Session.challenge
    (session (fst (main nat counter_randbelow
                     {| now_timer := 0; in_team_name := "Team A";
                        in_email := "a@example.org"; in_difficulty := "Hard";
                        get_challenge_clicked := true; now_clicked := 5;
                        toggle_hints_clicked := false;
                        in_requirements := EmptyString;
                        in_bugs := EmptyString;
                        in_improvements := EmptyString;
                        submit_clicked := false; sheet_saved := false;
                        email_sent := None; try_another_clicked := false |}
                     7%nat None)))
  = Some multi_layer_authentication.
Proof.
  apply (get_challenge_run nat counter_randbelow counter_randbelow_lt).
  - reflexivity.
  - right. reflexivity.
  - vm_compute. discriminate.
Defined.
